(** * apsit-notifier: change detection and dispatch pipeline

    A shallow embedding of [utils/notification_bot.py] and
    [utils/senders/whatsapp_sender.py], and the properties of the
    parser, the change detector, the formatters, the WhatsApp sender and
    the polling loop that the specification states about them. *)

From Stdlib Require Import String Ascii QArith DecimalString.
From stdpp Require Import list.

Local Open Scope N_scope.
Local Open Scope list_scope.

(** ** Python strings

    A Python [str] is a sequence of Unicode code points. *)

Module PyStr.

Definition codepoint := N.
Definition pystr := list codepoint.

(** A literal that only holds ASCII characters. *)
Definition str (s : string) : pystr :=
  List.map N_of_ascii (list_ascii_of_string s).

(** [str(n)] for an integer [n]. *)
Definition str_of_int (z : Z) : pystr :=
  str (NilEmpty.string_of_int (Z.to_int z)).

Definition SPACE : codepoint := 0x20.
Definition NEWLINE : codepoint := 0x0A.
Definition BACKSLASH : codepoint := 0x5C.

(** The code points for which [str.isspace] holds; [str.split()] and
    [str.strip()] without arguments separate and trim on these. *)
Definition whitespace_codepoints : list codepoint :=
  [0x09; 0x0A; 0x0B; 0x0C; 0x0D; 0x1C; 0x1D; 0x1E; 0x1F; 0x20; 0x85; 0xA0;
   0x1680; 0x2000; 0x2001; 0x2002; 0x2003; 0x2004; 0x2005; 0x2006; 0x2007;
   0x2008; 0x2009; 0x200A; 0x2028; 0x2029; 0x202F; 0x205F; 0x3000].

Definition isspace (c : codepoint) : bool :=
  bool_decide (c ∈ whitespace_codepoints).

(** [s.split()]: the maximal runs of non-whitespace, in order. *)
Fixpoint split (s : pystr) : list pystr :=
  match s with
  | [] => []
  | c :: rest =>
      if isspace c then split rest
      else match rest with
           | [] => [[c]]
           | d :: _ =>
               if isspace d then [c] :: split rest
               else match split rest with
                    | w :: ws => (c :: w) :: ws
                    | [] => [[c]]
                    end
           end
  end.

(** [sep.join(parts)]. *)
Fixpoint join (sep : pystr) (parts : list pystr) : pystr :=
  match parts with
  | [] => []
  | [p] => p
  | p :: ps => p ++ sep ++ join sep ps
  end.

(** [s.replace(old, new)] for a one-character [old]. *)
Definition replace (old : codepoint) (new : pystr) (s : pystr) : pystr :=
  flat_map (fun c => if decide (c = old) then new else [c]) s.

(** [s.strip()]. *)
Fixpoint lstrip (s : pystr) : pystr :=
  match s with
  | [] => []
  | c :: rest => if isspace c then lstrip rest else s
  end.

Fixpoint rstrip (s : pystr) : pystr :=
  match s with
  | [] => []
  | c :: rest =>
      match rstrip rest with
      | [] => if isspace c then [] else [c]
      | kept => c :: kept
      end
  end.

Definition strip (s : pystr) : pystr := lstrip (rstrip s).

End PyStr.
Import PyStr.

(** ** Python dictionaries

    A [dict] keeps its keys in insertion order; assigning to a key that is
    present replaces the value in place. *)

Module Dict.
Section Dict.
Context {K V : Type} `{EqDecision K}.

Definition dict := list (K * V).

Definition empty : dict := [].

(** [d.get(k)], [None] when the key is absent. *)
Fixpoint get (k : K) (d : dict) : option V :=
  match d with
  | [] => None
  | (k', v) :: rest => if decide (k = k') then Some v else get k rest
  end.

(** [d.get(k, default)]. *)
Definition get_or (k : K) (default : V) (d : dict) : V :=
  match get k d with Some v => v | None => default end.

(** [d[k] = v]. *)
Fixpoint set (k : K) (v : V) (d : dict) : dict :=
  match d with
  | [] => [(k, v)]
  | (k', v') :: rest =>
    if decide (k = k') then (k, v) :: rest else (k', v') :: set k v rest
  end.

Definition keys (d : dict) : list K := List.map fst d.
Definition values (d : dict) : list V := List.map snd d.
Definition items (d : dict) : list (K * V) := d.

(** A display [{k1: v1, ...}] and a comprehension [{k: f(k) for k in ks}]. *)
Definition literal (kvs : list (K * V)) : dict :=
  fold_left (fun d kv => set (fst kv) (snd kv) d) kvs empty.

Definition comprehension (f : K -> V) (ks : list K) : dict :=
  fold_left (fun d k => set k (f k) d) ks empty.

End Dict.
Arguments dict : clear implicits.
End Dict.

(** ** The parsed page

    [BeautifulSoup(content, 'html.parser')] yields a tree of tags and
    text nodes. The [class] attribute is multi-valued and kept apart from
    the other attributes. *)

Module Soup.

#[warnings="-register-all"]
Inductive node :=
| NavigableString (text : pystr)
| Tag (name : pystr) (classes : list pystr)
      (attrs : Dict.dict pystr pystr) (contents : list node).

(** [tag.descendants]: every node below [n], in document order. *)
Fixpoint descendants (n : node) : list node :=
  match n with
  | NavigableString _ => []
  | Tag _ _ _ contents =>
      (fix walk (l : list node) : list node :=
         match l with
         | [] => []
         | c :: l' => c :: descendants c ++ walk l'
         end) contents
  end.

Definition name_of (n : node) : option pystr :=
  match n with NavigableString _ => None | Tag name _ _ _ => Some name end.

Definition has_name (names : list pystr) (n : node) : bool :=
  match n with
  | NavigableString _ => false
  | Tag name _ _ _ => bool_decide (name ∈ names)
  end.

Definition has_class (cls : pystr) (n : node) : bool :=
  match n with
  | NavigableString _ => false
  | Tag _ classes _ _ => bool_decide (cls ∈ classes)
  end.

(** [tag.find_all(names)] and [tag.find_all(name, class_=cls)]. *)
Definition find_all (names : list pystr) (n : node) : list node :=
  List.filter (has_name names) (descendants n).

Definition find_all_class (name cls : pystr) (n : node) : list node :=
  List.filter (fun d => has_name [name] d && has_class cls d) (descendants n).

(** [tag.find(...)]: the first match, [None] when there is none. *)
Definition find (name : pystr) (n : node) : option node :=
  head (find_all [name] n).

Definition find_class (name cls : pystr) (n : node) : option node :=
  head (find_all_class name cls n).

(** [soup.select('section.block')]. *)
Definition select_section_block (soup : node) : list node :=
  find_all_class (str "section") (str "block") soup.

(** [tag[key]]; [None] stands for the [KeyError]. *)
Definition getitem (key : pystr) (n : node) : option pystr :=
  match n with
  | NavigableString _ => None
  | Tag _ _ attrs _ => Dict.get key attrs
  end.

(** [tag.get_text(strip=True)]: the text nodes below the tag, each
    stripped, the empty ones dropped, joined without a separator. *)
Definition strings (n : node) : list pystr :=
  omap (fun d =>
          match d with
          | NavigableString t => Some t
          | Tag _ _ _ _ => None
          end)
       (descendants n).

Definition get_text_strip (n : node) : pystr :=
  join [] (List.filter (fun t => negb (bool_decide (t = [])))
                       (List.map strip (strings n))).

End Soup.

(** ** [NotificationBot.clean_text] *)

Definition markdown_chars : list codepoint :=
  List.concat (List.map str
    ["_"; "*"; "["; "]"; "("; ")"; "~"; "`"; ">"; "#"; "+"; "-"; "="; "|";
     "{"; "}"; "."; "!"]%string).

(** One round of the loop over [markdown_chars]. *)
Definition escape_pass (text : pystr) (char : codepoint) : pystr :=
  replace char (BACKSLASH :: [char]) text.

Definition clean_text (text : pystr) (for_markdown : bool) : pystr :=
  let text :=
    if for_markdown then fold_left escape_pass markdown_chars text
    else replace BACKSLASH [] text in
  join [SPACE] (split text).

(** The normalization as the specification words it: escape the markdown
    metacharacters or drop the backslashes, then collapse every run of
    whitespace to one space and trim. *)

Definition markdown_metacharacters : list codepoint := str "_*[]()~`>#+-=|{}.!".

Definition escape_markdown (text : pystr) : pystr :=
  flat_map (fun c => if bool_decide (c ∈ markdown_metacharacters)
                     then [BACKSLASH; c] else [c]) text.

Definition strip_backslashes (text : pystr) : pystr :=
  List.filter (fun c => negb (bool_decide (c = BACKSLASH))) text.

(** Every maximal run of whitespace becomes a single space. *)
Fixpoint collapse_whitespace (s : pystr) : pystr :=
  match s with
  | [] => []
  | c :: rest =>
      if isspace c then
        match rest with
        | [] => [SPACE]
        | d :: _ => if isspace d then collapse_whitespace rest
                    else SPACE :: collapse_whitespace rest
        end
      else c :: collapse_whitespace rest
  end.

Definition normalize_whitespace (s : pystr) : pystr :=
  strip (collapse_whitespace s).

(** ** Exceptions, external calls and the trace of a run

    [asyncio.CancelledError] derives from [BaseException], so an
    [except Exception] clause does not catch it. The text carried by the
    other two is [str(e)]. *)

Inductive exn :=
| CancelledError
| Exception (what : pystr)
| BaseException (what : pystr).

(** ** Items and snapshots

    An item is a dictionary with the keys [title] and [link] and, for the
    announcements, [date] and [author]; two items are equal when they have
    the same keys with the same values. *)

Record Item := mkItem {
  title : pystr;
  link : pystr;
  date : option pystr;
  author : option pystr
}.

#[global] Instance Item_eq_dec : EqDecision Item.
Proof. solve_decision. Defined.

Definition Snapshot := Dict.dict pystr (list Item).
Definition Delta := Dict.dict pystr (list Item).

(** ** [NotificationBot.parse_content] *)

Definition LATEST_ANNOUNCEMENTS : pystr := str "Latest Announcements".

Definition categories : list pystr :=
  List.map str
    ["Latest Announcements"; "Exam Notifications"; "Office Notifications";
     "Scholarship Section"; "Application Formats"; "Cultural Events";
     "Technical Clubs"; "IEEE & CSI"]%string.

Definition empty_notifications : Snapshot :=
  Dict.literal (List.map (fun c => (c, [])) categories).

Definition sections_map : Dict.dict pystr pystr :=
  Dict.literal
    [(str "Latest announcements", str "Latest Announcements");
     (str "Exam Notifications", str "Exam Notifications");
     (str "Office Notifications", str "Office Notifications");
     (str "Scholarship Section", str "Scholarship Section");
     (str "Application Formats", str "Application Formats");
     (str "Cultural Events", str "Cultural Events");
     (str "Technical Clubs", str "Technical Clubs");
     (str "IEEE & CSI", str "IEEE & CSI")].

(** What the body of the [try] does with one entry. *)
Inductive entry_outcome :=
| Entry (entry : Item)
| Continue
| Raised (what : pystr).

Definition KeyError_href : pystr := str "'href'".
Definition AttributeError_get_text : pystr :=
  str "'NoneType' object has no attribute 'get_text'".

Definition parse_item (section_key : pystr) (item : Soup.node) : entry_outcome :=
  if decide (section_key = LATEST_ANNOUNCEMENTS) then
    match Soup.find (str "a") item with
    | None => Continue
    | Some anchor =>
        let title := Soup.get_text_strip anchor in
        match Soup.getitem (str "href") anchor with
        | None => Raised KeyError_href
        | Some link =>
            match Soup.find_class (str "div") (str "date") item with
            | None => Raised AttributeError_get_text
            | Some date_div =>
                let date := Soup.get_text_strip date_div in
                match Soup.find_class (str "div") (str "name") item with
                | None => Raised AttributeError_get_text
                | Some name_div =>
                    let author := Soup.get_text_strip name_div in
                    Entry (mkItem (clean_text title false) link (Some date) (Some author))
                end
            end
        end
    end
  else
    if decide (Soup.name_of item = Some (str "a")) then
      let title := Soup.get_text_strip item in
      match Soup.getitem (str "href") item with
      | None => Raised KeyError_href
      | Some link => Entry (mkItem (clean_text title false) link None None)
      end
    else if decide (Soup.name_of item = Some (str "li")) then
      match Soup.find (str "a") item with
      | None => Continue
      | Some anchor =>
          match Soup.getitem (str "href") anchor with
          | None => Raised KeyError_href
          | Some link =>
              let title := replace NEWLINE [SPACE] (Soup.get_text_strip item) in
              Entry (mkItem (clean_text title false) link None None)
          end
      end
    else Continue.

(** The parser threads the mapping under construction and the warnings
    it has logged so far. *)
Definition parser_state : Type := Snapshot * list pystr.

Definition warn (msg : pystr) (st : parser_state) : parser_state :=
  (fst st, snd st ++ [msg]).

Definition item_warning (section_key what : pystr) : pystr :=
  str "Error processing item in " ++ section_key ++ str ": " ++ what.

(** [notifications[section_key].append(entry)]; a missing key raises a
    [KeyError] inside the [try]. *)
Definition append_entry (section_key : pystr) (entry : Item)
    (st : parser_state) : parser_state :=
  match Dict.get section_key (fst st) with
  | Some l => (Dict.set section_key (l ++ [entry]) (fst st), snd st)
  | None =>
      warn (item_warning section_key (str "'" ++ section_key ++ str "'")) st
  end.

Definition parse_entry (section_key : pystr) (st : parser_state)
    (item : Soup.node) : parser_state :=
  match parse_item section_key item with
  | Entry entry => append_entry section_key entry st
  | Continue => st
  | Raised what => warn (item_warning section_key what) st
  end.

Definition parse_section (st : parser_state) (section : Soup.node) : parser_state :=
  match Soup.find (str "h2") section with
  | None => st
  | Some header =>
      let section_title := Soup.get_text_strip header in
      match Dict.get section_title sections_map with
      | None => warn (str "Skipping unknown section: " ++ section_title) st
      | Some section_key =>
          if decide (section_key = []) then
            warn (str "Skipping unknown section: " ++ section_title) st
          else
          match Soup.find_class (str "div") (str "content") section with
          | None => st
          | Some content_div =>
              let items :=
                if decide (section_key = LATEST_ANNOUNCEMENTS)
                then Soup.find_all_class (str "li") (str "post") content_div
                else Soup.find_all [str "a"; str "li"] content_div in
              fold_left (parse_entry section_key) items st
          end
      end
  end.

(** [parse_content] after the call of [BeautifulSoup]: the mapping and the
    warnings logged on the way. *)
Definition parse_soup (soup : Soup.node) : parser_state :=
  fold_left parse_section (Soup.select_section_block soup) (empty_notifications, []).

(** ** [NotificationBot.find_new_notifications] *)

Definition find_new_notifications (current previous : Snapshot) : Delta :=
  Dict.comprehension
    (fun section =>
       List.filter
         (fun item => bool_decide (item ∉ Dict.get_or section [] previous))
         (Dict.get_or section [] current))
    (Dict.keys current).

(** ** The two renderings *)

Definition MEGAPHONE : pystr := [0xF0; 0x178; 0x201C; 0xA3].
Definition LOUDSPEAKER : pystr := [0xF0; 0x178; 0x201C; 0xA2].
Definition LINK_MARK : pystr := [0xF0; 0x178; 0x201D; 0x2014].
Definition DATE_MARK : pystr := [0xF0; 0x178; 0x2014; 0x201C].
Definition AUTHOR_MARK : pystr := [0xF0; 0x178; 0x2018; 0xA4].

Definition format_telegram_message (section : pystr) (item : Item) : pystr :=
  let clean_section := clean_text section false in
  let clean_title := clean_text (title item) false in
  let link := link item in
  let base :=
    MEGAPHONE ++ str " New " ++ clean_section ++ str "!" ++ [NEWLINE; NEWLINE]
      ++ clean_title ++ [NEWLINE] ++ LINK_MARK ++ str " " ++ link in
  match date item, author item with
  | Some d, Some a =>
      let clean_date := clean_text d false in
      let clean_author := clean_text a false in
      base ++ [NEWLINE] ++ DATE_MARK ++ str " " ++ clean_date
           ++ [NEWLINE] ++ AUTHOR_MARK ++ str " " ++ clean_author
  | _, _ => base
  end.

Definition format_whatsapp_message (section : pystr) (item : Item) : pystr :=
  let message :=
    LOUDSPEAKER ++ str " New " ++ section ++ str " Alert!" ++ [NEWLINE]
      ++ title item ++ [NEWLINE] ++ LINK_MARK ++ str " " ++ link item in
  match date item, author item with
  | Some d, Some a =>
      message ++ [NEWLINE] ++ DATE_MARK ++ str " " ++ d
              ++ [NEWLINE] ++ AUTHOR_MARK ++ str " " ++ a
  | _, _ => message
  end.

(** ** The outside world

    The calls that leave the process: the shared HTTP session, the state
    store, the Telegram sender (whose module is not part of these
    sources) and [asyncio.sleep]. Each may return or raise. *)

Inductive json_value :=
| JInt (n : Z)
| JStr (s : pystr).

Inductive call :=
| session_get (url : pystr)
| session_post (url : pystr) (json : Dict.dict pystr json_value)
               (headers : Dict.dict pystr pystr)
| storage_load_state
| storage_save_state (state : Snapshot)
| telegram_send_items (messages : list pystr)
| asyncio_sleep (seconds : Q).

(** A response: its status, and what awaiting [response.text()] gives. *)
Record Response := mkResponse {
  status : Z;
  text : exn + pystr
}.

Definition answer (c : call) : Type :=
  match c with
  | session_get _ | session_post _ _ _ => Response
  | storage_load_state => Snapshot
  | storage_save_state _ | telegram_send_items _ | asyncio_sleep _ => unit
  end.

Inductive level := INFO | WARNING | ERROR.

Inductive event :=
| Call (c : call)
| Log (lvl : level) (msg : pystr).

(** The world answers a call knowing everything that happened before. *)
Definition world := list event -> forall c : call, exn + answer c.

(** A coroutine: given the world and the history, the events it adds and
    its value or the exception that leaves it. *)
Definition M (A : Type) : Type := world -> list event -> list event * (exn + A).

Definition ret {A} (a : A) : M A := fun _ _ => ([], inr a).

Definition raise {A} (e : exn) : M A := fun _ _ => ([], inl e).

Definition bind {A B} (m : M A) (k : A -> M B) : M B :=
  fun w h =>
    match m w h with
    | (t, inl e) => (t, inl e)
    | (t, inr a) =>
        match k a w (h ++ t) with
        | (t', r) => (t ++ t', r)
        end
    end.

Definition await (c : call) : M (answer c) := fun w h => ([Call c], w h c).

Definition log (lvl : level) (msg : pystr) : M unit := fun _ _ => ([Log lvl msg], inr tt).

Definition lift {A} (r : exn + A) : M A := fun _ _ => ([], r).

(** [try: body except ...: handler]; the handler is [None] for an
    exception that no clause matches. *)
Definition try_except {A} (body : M A) (handler : exn -> option (M A)) : M A :=
  fun w h =>
    match body w h with
    | (t, inl e) =>
        match handler e with
        | Some k => match k w (h ++ t) with (t', r) => (t ++ t', r) end
        | None => (t, inl e)
        end
    | (t, inr a) => (t, inr a)
    end.

#[global] Instance M_ret : MRet M := @ret.
#[global] Instance M_bind : MBind M := fun A B k m => bind m k.

(** [for x in xs: body(x)]. *)
Fixpoint for_each {A} (xs : list A) (body : A -> M unit) : M unit :=
  match xs with
  | [] => ret tt
  | x :: rest => body x;; for_each rest body
  end.

Definition run {A} (m : M A) (w : world) : list event * (exn + A) := m w [].
Definition trace {A} (m : M A) (w : world) : list event := fst (run m w).
Definition outcome {A} (m : M A) (w : world) : exn + A := snd (run m w).

(** ** [WhatsAppSender] *)

Module WhatsAppSender.

Record t := mk {
  _api_url : pystr;
  _auth_token : pystr;
  _recipient : pystr
}.

Definition payload (self : t) (body : pystr) : Dict.dict pystr json_value :=
  Dict.literal
    [(str "typing_time", JInt 0);
     (str "to", JStr (_recipient self));
     (str "body", JStr body)].

Definition headers (self : t) : Dict.dict pystr pystr :=
  Dict.literal
    [(str "accept", str "application/json");
     (str "content-type", str "application/json");
     (str "authorization", str "Bearer " ++ _auth_token self)].

Definition _send_one (self : t) (body : pystr) : M unit :=
  resp ← await (session_post (_api_url self) (payload self body) (headers self));
  if decide (status resp ≠ 200%Z) then
    txt ← lift (text resp);
    log ERROR (str "Failed to send WhatsApp message: " ++ txt)
  else
    log INFO (str "WhatsApp message sent successfully").

Definition default_spacing_seconds : Q := 0.7.

Definition send_items (self : t) (messages : list pystr)
    (spacing_seconds : Q) : M unit :=
  log INFO (str "WhatsAppSender received "
              ++ str_of_int (Z.of_nat (length messages))
              ++ str " messages to send.");;
  for_each messages (fun message =>
    _send_one self message;;
    await (asyncio_sleep spacing_seconds)).

End WhatsAppSender.

(** ** [TelegramSender]

    [senders/telegram_sender.py] is not among the sources: a call of its
    [send_items] is a call into the outside world. *)

Module TelegramSender.

Record t := mk { _channel_id : pystr }.

Definition send_items (self : t) (messages : list pystr) : M unit :=
  await (telegram_send_items messages).

End TelegramSender.

(** ** [NotificationBot] *)

Record Config := mkConfig {
  CLONED_PAGE_URL : pystr;
  CHECK_INTERVAL : Q
}.

Record NotificationBot := mkBot {
  config : Config;
  telegram_sender : option TelegramSender.t;
  whatsapp_sender : option WhatsAppSender.t
}.

Inductive loop_status :=
| Looping     (* still inside [while True] *)
| Returned.   (* left through [except asyncio.CancelledError: pass] *)

Section Bot.

(** [BeautifulSoup(content, 'html.parser')]: the tree, or, for a body
    that the parser rejects, the message of the exception it raises
    (bs4's [ParserRejectedMarkup], of class [Exception]). *)
Variable BeautifulSoup : pystr -> pystr + Soup.node.

Variable self : NotificationBot.

Definition parse_content (content : pystr) : M Snapshot :=
  match BeautifulSoup content with
  | inl what => raise (Exception what)
  | inr soup =>
      let st := parse_soup soup in
      for_each (snd st) (log WARNING);;
      ret (fst st)
  end.

Definition get_latest_notifications : M Snapshot :=
  try_except
    (response ← await (session_get (CLONED_PAGE_URL (config self)));
     if decide (status response = 200%Z) then
       content ← lift (text response);
       parse_content content
     else
       log ERROR (str "HTTP Error: " ++ str_of_int (status response));;
       ret Dict.empty)
    (fun e =>
       match e with
       | Exception what =>
           Some (log ERROR (str "Fetch error: " ++ what);; ret Dict.empty)
       | _ => None
       end).

Definition rendered (render : pystr -> Item -> pystr)
    (new_notifications : Delta) : list pystr :=
  flat_map (fun kv => List.map (render (fst kv)) (snd kv))
           (Dict.items new_notifications).

Definition send_notifications (new_notifications : Delta) : M unit :=
  let telegram_messages := rendered format_telegram_message new_notifications in
  let whatsapp_messages := rendered format_whatsapp_message new_notifications in
  match telegram_sender self, telegram_messages with
  | Some sender, _ :: _ => TelegramSender.send_items sender telegram_messages
  | _, _ => ret tt
  end;;
  match whatsapp_sender self, whatsapp_messages with
  | Some sender, _ :: _ =>
      log INFO (str "Attempting to send WhatsApp messages...");;
      WhatsAppSender.send_items sender whatsapp_messages
                                WhatsAppSender.default_spacing_seconds
  | _, _ => ret tt
  end.

(** [any(new_notifications.values())]. *)
Definition any_new (new_notifications : Delta) : bool :=
  existsb (fun v => negb (bool_decide (v = []))) (Dict.values new_notifications).

Definition saved_message (current : Snapshot) : pystr :=
  let total := fold_left Z.add
                 (List.map (fun v => Z.of_nat (length v)) (Dict.values current)) 0%Z in
  str "Saved state to MongoDB with " ++ str_of_int total
    ++ str " items across " ++ str_of_int (Z.of_nat (length current))
    ++ str " sections".

Definition check_for_updates : M unit :=
  current ← get_latest_notifications;
  previous ← await storage_load_state;
  let new_notifications := find_new_notifications current previous in
  if any_new new_notifications then
    send_notifications new_notifications;;
    await (storage_save_state current);;
    log INFO (saved_message current)
  else ret tt.

(** The first [n] rounds of [while True]. *)
Fixpoint ticker_rounds (n : nat) : M loop_status :=
  match n with
  | O => ret Looping
  | S n' =>
      check_for_updates;;
      await (asyncio_sleep (CHECK_INTERVAL (config self)));;
      ticker_rounds n'
  end.


End Bot.

(** ** Reading a trace *)

Definition calls (t : list event) : list call :=
  omap (fun ev => match ev with Call c => Some c | Log _ _ => None end) t.

Definition is_post (c : call) : bool :=
  match c with session_post _ _ _ => true | _ => false end.

Definition is_save (c : call) : bool :=
  match c with storage_save_state _ => true | _ => false end.

Definition is_telegram (c : call) : bool :=
  match c with telegram_send_items _ => true | _ => false end.

Definition is_sleep (c : call) : bool :=
  match c with asyncio_sleep _ => true | _ => false end.

(** The message bodies handed to [session.post], in the order of the posts. *)
Definition posted_bodies (t : list event) : list pystr :=
  omap (fun c =>
          match c with
          | session_post _ json _ =>
              match Dict.get (str "body") json with
              | Some (JStr body) => Some body
              | _ => None
              end
          | _ => None
          end) (calls t).

#[global] Instance Q_eq_dec : EqDecision Q.
Proof. solve_decision. Defined.

#[global] Instance json_value_eq_dec : EqDecision json_value.
Proof. solve_decision. Defined.

#[global] Instance call_eq_dec : EqDecision call.
Proof. solve_decision. Defined.


(** ** Worlds

    A world in which nothing but the fetch fails, and the fetch only by
    a status other than 200 or by an [Exception]: the state store, the
    senders and the pauses always return. *)
Definition only_fetch_fails (w : world) : Prop :=
  (forall h url,
     match w h (session_get url) with
     | inl e => exists what, e = Exception what
     | inr response =>
         match text response with
         | inl e => exists what, e = Exception what
         | inr _ => True
         end
     end)
  /\ (forall h, exists previous, w h storage_load_state = inr previous)
  /\ (forall h state, w h (storage_save_state state) = inr tt)
  /\ (forall h messages, w h (telegram_send_items messages) = inr tt)
  /\ (forall h url json hdrs,
        exists st txt,
          w h (session_post url json hdrs) = inr (mkResponse st (inr txt)))
  /\ (forall h seconds, w h (asyncio_sleep seconds) = inr tt).

(** ** The Telegram rendering as the specification words it

    The category label, the title and, when both are present, the date
    and the author pass through [normalize]; the link does not. *)
Definition telegram_rendering (normalize : pystr -> pystr)
    (section : pystr) (item : Item) : pystr :=
  MEGAPHONE ++ str " New " ++ normalize section ++ str "!" ++ [NEWLINE; NEWLINE]
    ++ normalize (title item) ++ [NEWLINE] ++ LINK_MARK ++ str " " ++ link item
    ++ match date item, author item with
       | Some d, Some a =>
           [NEWLINE] ++ DATE_MARK ++ str " " ++ normalize d
             ++ [NEWLINE] ++ AUTHOR_MARK ++ str " " ++ normalize a
       | _, _ => []
       end.

(** ** A sample page, a bot and some worlds *)

Definition text_of (s : string) : Soup.node := Soup.NavigableString (str s).

Definition sample_post : Soup.node :=
  Soup.Tag (str "li") [str "post"] []
    [Soup.Tag (str "a") [] [(str "href", str "/x")] [text_of " Exam Postponed "];
     Soup.Tag (str "div") [str "date"] [] [text_of "2024-01-01"];
     Soup.Tag (str "div") [str "name"] [] [text_of "Admin"]].

Definition sample_page : Soup.node :=
  Soup.Tag (str "[document]") [] []
    [Soup.Tag (str "section") [str "block"] []
       [Soup.Tag (str "h2") [] [] [text_of "Latest announcements"];
        Soup.Tag (str "div") [str "content"] []
          [Soup.Tag (str "ul") [] [] [sample_post]]];
     Soup.Tag (str "section") [str "block"] []
       [Soup.Tag (str "h2") [] [] [text_of "Exam Notifications"];
        Soup.Tag (str "div") [str "content"] []
          [Soup.Tag (str "a") [] [(str "href", str "/e1")] [text_of "Time.table"]]]].

(** A body that the parser rejects. *)
Definition rejected_body : pystr := str "<![a]]>".

(** The parser on the samples: it rejects [rejected_body] and reads every
    other body as the sample page. *)
Definition sample_soup (content : pystr) : pystr + Soup.node :=
  if decide (content = rejected_body)
  then inl (str "The markup you provided was rejected by the parser.")
  else inr sample_page.

Definition sample_sender : WhatsAppSender.t :=
  WhatsAppSender.mk (str "https://gate.example/messages/text")
                    (str "token") (str "recipient").

Definition sample_bot : NotificationBot :=
  mkBot (mkConfig (str "https://example.org/notices") 60)
        (Some (TelegramSender.mk (str "@notices")))
        (Some sample_sender).

Definition ok_response : Response := mkResponse 200 (inr (str "<html>")).

(** Every call returns; the store holds no previous state. *)
Definition calm_world : world :=
  fun h c =>
    match c with
    | session_get _ | session_post _ _ _ => inr ok_response
    | storage_load_state => inr Dict.empty
    | storage_save_state _ | telegram_send_items _ | asyncio_sleep _ => inr tt
    end.

(** The page answers 200 with a body that the parser rejects. *)
Definition rejected_body_world : world :=
  fun h c =>
    match c as c' return exn + answer c' with
    | session_get _ => inr (mkResponse 200 (inr rejected_body))
    | c' => calm_world h c'
    end.

(** The page answers with status 500. *)
Definition http_500_world : world :=
  fun h c =>
    match c as c' return exn + answer c' with
    | session_get _ => inr (mkResponse 500 (inr (str "Internal Server Error")))
    | c' => calm_world h c'
    end.


(** The Telegram sender raises. *)
Definition telegram_down_world : world :=
  fun h c =>
    match c as c' return exn + answer c' with
    | telegram_send_items _ => inl (Exception (str "Timed out"))
    | c' => calm_world h c'
    end.

(** The second post of a run gets the answer [second]. *)
Definition second_post_world (second : exn + Response) : world :=
  fun h c =>
    match c as c' return exn + answer c' with
    | session_post _ _ _ =>
        if decide (length (List.filter is_post (calls h)) = 1%nat)
        then second else inr ok_response
    | c' => calm_world h c'
    end.

Definition three_messages : list pystr := [str "one"; str "two"; str "three"].

Definition exam_item : Item := mkItem (str "a.b") (str "/x") None None.

Definition sample_snapshot : Snapshot := fst (parse_soup sample_page).

Definition sample_delta : Delta :=
  find_new_notifications sample_snapshot Dict.empty.

Definition busy : exn + Response := inr (mkResponse 500 (inr (str "busy"))).

(** An answer with status 500 whose body cannot be read. *)
Definition unreadable : exn + Response :=
  inr (mkResponse 500 (inl (Exception (str "Response payload is not completed")))).

Definition is_error_line (ev : event) : bool :=
  match ev with Log ERROR _ => true | _ => false end.

Definition reset : exn := Exception (str "Connection reset by peer").

(** ** Reading texts

    A word as [str.split()] yields them: not empty and free of
    whitespace. *)
Definition word_like (word : pystr) : Prop :=
  word <> [] /\ Forall (fun c => isspace c = false) word.

(** How often a character occurs in a text. *)
Definition count_char (c : codepoint) (s : pystr) : nat :=
  length (List.filter (fun x => bool_decide (x = c)) s).

(** ** The layout of a message *)

Definition without_date_author (item : Item) : Item :=
  mkItem (title item) (link item) None None.

(** The state store holds the snapshot of the sample page. *)
Definition seen_world : world :=
  fun h c =>
    match c as c' return exn + answer c' with
    | storage_load_state => inr sample_snapshot
    | c' => calm_world h c'
    end.


Definition cancelled_pause_world : world :=
  fun h c =>
    match c as c' return exn + answer c' with
    | asyncio_sleep seconds =>
        if decide (seconds = 60%Q) then inl CancelledError else inr tt
    | c' => calm_world h c'
    end.

Definition unregistered_bot : NotificationBot :=
  mkBot (config sample_bot) None None.

(** ** Reading a page

    The entry that the body of the [try] appends for a candidate, if any. *)
Definition entry_of (section_key : pystr) (item : Soup.node) : option Item :=
  match parse_item section_key item with
  | Entry entry => Some entry
  | Continue | Raised _ => None
  end.

(** The candidates that the parser picks in the content of a section. *)
Definition candidates (section_key : pystr) (content_div : Soup.node)
    : list Soup.node :=
  if decide (section_key = LATEST_ANNOUNCEMENTS)
  then Soup.find_all_class (str "li") (str "post") content_div
  else Soup.find_all [str "a"; str "li"] content_div.

(** The category of a section and the entries it holds: [None] for a
    section without heading, with a heading that is not in the table, or
    without content block. *)
Definition section_entries (section : Soup.node) : option (pystr * list Item) :=
  match Soup.find (str "h2") section with
  | None => None
  | Some header =>
      match Dict.get (Soup.get_text_strip header) sections_map with
      | None => None
      | Some section_key =>
          if decide (section_key = []) then None else
          match Soup.find_class (str "div") (str "content") section with
          | None => None
          | Some content_div =>
              Some (section_key,
                    omap (entry_of section_key)
                         (candidates section_key content_div))
          end
      end
  end.

(** The entries that a list of sections holds for one category, in the
    order of the sections. *)
Definition entries_for (category : pystr) (sections : list Soup.node)
    : list Item :=
  flat_map (fun section =>
              match section_entries section with
              | Some (section_key, entries) =>
                  if decide (section_key = category) then entries else []
              | None => []
              end) sections.

(** The keys an item has in a category: the announcements carry a date
    and an author, the items of the other categories neither. *)
Definition item_shape (category : pystr) (item : Item) : Prop :=
  if decide (category = LATEST_ANNOUNCEMENTS)
  then is_Some (date item) /\ is_Some (author item)
  else date item = None /\ author item = None.

(** A page with one linked list entry in a section of plain links. *)
Definition sample_list_entry : Soup.node :=
  Soup.Tag (str "li") [] []
    [Soup.Tag (str "a") [] [(str "href", str "/forms/leave.pdf")]
       [text_of "Leave form"]].

Definition sample_list_section : Soup.node :=
  Soup.Tag (str "section") [str "block"] []
    [Soup.Tag (str "h2") [] [] [text_of "Application Formats"];
     Soup.Tag (str "div") [str "content"] []
       [Soup.Tag (str "ul") [] [] [sample_list_entry]]].

Definition sample_list_page : Soup.node :=
  Soup.Tag (str "[document]") [] [] [sample_list_section].

(** ** [NotificationBot._on_shutdown]

    The shutdown hook talks to the ticker task, the HTTP session and the
    state store. [task.cancel()] only requests the cancellation and does
    not raise; the three awaits may return or raise. *)

Module Shutdown.

(** [self._tick_task]: [None], a task that is done, or one still running. *)
Inductive task_state := NoTask | TaskDone | TaskRunning.

Inductive op :=
| task_cancel
| await_task
| session_close
| storage_close.

Definition world := list op -> op -> exn + unit.

Definition S (A : Type) : Type := world -> list op -> list op * (exn + A).

Definition ret {A} (a : A) : S A := fun _ _ => ([], inr a).

Definition bind {A B} (m : S A) (k : A -> S B) : S B :=
  fun w h =>
    match m w h with
    | (t, inl e) => (t, inl e)
    | (t, inr a) =>
        match k a w (h ++ t) with
        | (t', r) => (t ++ t', r)
        end
    end.

(** A call that cannot raise, and one that the world answers. *)
Definition call (o : op) : S unit := fun _ _ => ([o], inr tt).

Definition await (o : op) : S unit := fun w h => ([o], w h o).

Definition try_except {A} (body : S A) (handler : exn -> option (S A)) : S A :=
  fun w h =>
    match body w h with
    | (t, inl e) =>
        match handler e with
        | Some k => match k w (h ++ t) with (t', r) => (t ++ t', r) end
        | None => (t, inl e)
        end
    | (t, inr a) => (t, inr a)
    end.

(** [try: body finally: final]: [final] runs in any case, and an
    exception it raises replaces the outcome of [body]. *)
Definition try_finally {A} (body : S A) (final : S unit) : S A :=
  fun w h =>
    match body w h with
    | (t, r) =>
        match final w (h ++ t) with
        | (t', inl e) => (t ++ t', inl e)
        | (t', inr _) => (t ++ t', r)
        end
    end.

Definition _on_shutdown (_tick_task : task_state) : S unit :=
  try_finally
    (match _tick_task with
     | TaskRunning =>
         bind (call task_cancel) (fun _ =>
           try_except (await await_task)
             (fun e =>
                match e with
                | CancelledError => Some (ret tt)
                | _ => None
                end))
     | NoTask | TaskDone => ret tt
     end)
    (try_finally (await session_close) (await storage_close)).

Definition run {A} (m : S A) (w : world) : list op * (exn + A) := m w [].

End Shutdown.

(** ** A page that does not change and a store that keeps what it is given

    The state that the store holds after the history [h], when it held
    [initial] at the start: the argument of the last [save_state]. *)
Definition stored (initial : Snapshot) (h : list event) : Snapshot :=
  fold_left (fun state ev =>
               match ev with
               | Call (storage_save_state state') => state'
               | _ => state
               end) h initial.

(** The page always answers 200 with the same body, the store returns
    what it holds, and the senders and the pauses return. *)
Definition steady_world (content : pystr) (initial : Snapshot) (w : world)
    : Prop :=
  (forall h url, w h (session_get url) = inr (mkResponse 200 (inr content)))
  /\ (forall h, w h storage_load_state = inr (stored initial h))
  /\ (forall h state, w h (storage_save_state state) = inr tt)
  /\ (forall h messages, w h (telegram_send_items messages) = inr tt)
  /\ (forall h url json hdrs,
        exists st txt,
          w h (session_post url json hdrs) = inr (mkResponse st (inr txt)))
  /\ (forall h seconds, w h (asyncio_sleep seconds) = inr tt).

(** What a fetch answered 200 with the body [content] returns, and what
    it logs after the request: the warnings of the parser, or the error
    line when the parser rejects the body. *)
Definition snapshot_of (BeautifulSoup : pystr -> pystr + Soup.node)
    (content : pystr) : Snapshot :=
  match BeautifulSoup content with
  | inl _ => Dict.empty
  | inr soup => fst (parse_soup soup)
  end.

Definition fetch_log (BeautifulSoup : pystr -> pystr + Soup.node)
    (content : pystr) : list event :=
  match BeautifulSoup content with
  | inl what => [Log ERROR (str "Fetch error: " ++ what)]
  | inr soup => List.map (Log WARNING) (snd (parse_soup soup))
  end.

(** Every item of [current] is in [state] under its category. *)
Definition all_seen (current state : Snapshot) : Prop :=
  forall section items item,
    Dict.get section current = Some items ->
    item ∈ items ->
    item ∈ Dict.get_or section [] state.

(** The sample page, fetched again and again, with a store that starts
    empty. *)
Definition steady_sample_world : world :=
  fun h c =>
    match c as c' return exn + answer c' with
    | storage_load_state => inr (stored Dict.empty h)
    | c' => calm_world h c'
    end.

(** A page whose only section has a heading that is not in the table. *)
Definition sample_unknown_section : Soup.node :=
  Soup.Tag (str "section") [str "block"] []
    [Soup.Tag (str "h2") [] [] [text_of "Placements"];
     Soup.Tag (str "div") [str "content"] []
       [Soup.Tag (str "a") [] [(str "href", str "/p")] [text_of "Drive"]]].

Definition sample_unknown_page : Soup.node :=
  Soup.Tag (str "[document]") [] [] [sample_unknown_section].

(** * Properties *)

(** ** Strings *)

Section StringFacts.

Lemma split_head_not_space s w ws :
  split s = w :: ws -> exists c w', w = c :: w' /\ isspace c = false.
Proof.
  revert w ws. induction s as [|c rest IH]; intros w ws; simpl; [done|].
  destruct (isspace c) eqn:Hc; [by apply IH|].
  destruct rest as [|d rest']; [intros [= <- <-]; eauto|].
  destruct (isspace d) eqn:Hd; [intros [= <- <-]; eauto|].
  destruct (split (d :: rest')) as [|w0 ws0]; intros [= <- <-]; eauto.
Qed.

Lemma split_not_space_cons c rest :
  isspace c = false -> split (c :: rest) <> [].
Proof.
  intros Hc. simpl. rewrite Hc.
  destruct rest as [|d rest']; [done|].
  destruct (isspace d); [done|].
  by destruct (split (d :: rest')).
Qed.

Lemma join_cons_cons sep p q ps :
  join sep (p :: q :: ps) = p ++ sep ++ join sep (q :: ps).
Proof. reflexivity. Qed.

Lemma join_split_head s :
  join [SPACE] (split s) = [] \/
  exists c t, join [SPACE] (split s) = c :: t /\ isspace c = false.
Proof.
  destruct (split s) as [|w ws] eqn:Hs; [by left|right].
  destruct (split_head_not_space _ _ _ Hs) as (c & w' & -> & Hc).
  destruct ws; simpl; eauto.
Qed.

Lemma join_split_nil s : join [SPACE] (split s) = [] -> split s = [].
Proof.
  destruct (split s) as [|w ws] eqn:Hs; [done|].
  destruct (split_head_not_space _ _ _ Hs) as (c & w' & -> & Hc).
  by destruct ws.
Qed.

Lemma rstrip_not_space_cons c s :
  isspace c = false -> rstrip (c :: s) = c :: rstrip s.
Proof. intros Hc. simpl. rewrite Hc. by destruct (rstrip s). Qed.

Lemma rstrip_cons_nonempty c s :
  rstrip s <> [] -> rstrip (c :: s) = c :: rstrip s.
Proof. intros Hs. simpl. by destruct (rstrip s). Qed.

(** The words of a string that starts a word, joined by single spaces. *)
Lemma join_split_not_space_cons c rest :
  isspace c = false ->
  join [SPACE] (split (c :: rest)) =
    c :: match rest with
         | [] => []
         | d :: _ =>
             if isspace d
             then match split rest with
                  | [] => []
                  | _ => SPACE :: join [SPACE] (split rest)
                  end
             else join [SPACE] (split rest)
         end.
Proof.
  intros Hc. simpl split. rewrite Hc.
  destruct rest as [|d rest']; [done|].
  destruct (isspace d) eqn:Hd.
  - destruct (split (d :: rest')) as [|w ws]; [done|].
    by rewrite join_cons_cons.
  - pose proof (split_not_space_cons d rest' Hd) as Hne.
    destruct (split (d :: rest')) as [|w ws]; [done|].
    by destruct ws.
Qed.

Lemma rstrip_collapse_whitespace s :
  rstrip (collapse_whitespace s) =
    match s with
    | [] => []
    | c :: _ =>
        if isspace c
        then match split s with
             | [] => []
             | _ => SPACE :: join [SPACE] (split s)
             end
        else join [SPACE] (split s)
    end.
Proof.
  induction s as [|c rest IH]; [done|].
  destruct (isspace c) eqn:Hc.
  - simpl collapse_whitespace. simpl split. rewrite Hc.
    destruct rest as [|d rest']; [reflexivity|].
    destruct (isspace d) eqn:Hd; [done|].
    pose proof (split_not_space_cons d rest' Hd) as Hne.
    assert (rstrip (collapse_whitespace (d :: rest')) <> []) as Hr.
    { rewrite IH. intros Hnil. by apply join_split_nil in Hnil. }
    rewrite (rstrip_cons_nonempty _ _ Hr), IH.
    by destruct (split (d :: rest')).
  - rewrite (join_split_not_space_cons _ _ Hc).
    change (collapse_whitespace (c :: rest)) with (c :: collapse_whitespace rest)
      || (simpl collapse_whitespace; rewrite Hc).
    rewrite (rstrip_not_space_cons _ _ Hc), IH.
    by destruct rest.
Qed.

(** Splitting on whitespace and joining with single spaces collapses
    the runs of whitespace and trims. *)
Lemma join_split_normalize s :
  join [SPACE] (split s) = normalize_whitespace s.
Proof.
  unfold normalize_whitespace, strip. rewrite rstrip_collapse_whitespace.
  assert (forall t, lstrip (join [SPACE] (split t)) = join [SPACE] (split t)) as Hl.
  { intros t. destruct (join_split_head t) as [->|(c & u & -> & Hc)]; [done|].
    simpl. by rewrite Hc. }
  destruct s as [|c rest]; [done|].
  destruct (isspace c) eqn:Hc; [|by rewrite Hl].
  destruct (split (c :: rest)) eqn:Hs; [done|].
  rewrite <- Hs. symmetry. apply (Hl (c :: rest)).
Qed.

End StringFacts.

(** ** [clean_text] *)

Section CleanText.

Lemma flat_map_flat_map {A B C} (f : B -> list C) (g : A -> list B) l :
  flat_map f (flat_map g l) = flat_map (fun a => flat_map f (g a)) l.
Proof.
  induction l as [|a l IH]; [done|].
  simpl. by rewrite flat_map_app, IH.
Qed.

Lemma replace_absent old new s : old ∉ s -> replace old new s = s.
Proof.
  unfold replace. induction s as [|c s IH]; [done|].
  intros Hnot. apply not_elem_of_cons in Hnot as [Hne Hnot].
  simpl. destruct (decide (c = old)); [congruence|].
  simpl. by rewrite IH.
Qed.

Lemma escape_passes_absent chars s :
  (forall c, c ∈ chars -> c ∉ s) -> fold_left escape_pass chars s = s.
Proof.
  induction chars as [|c chars IH]; [done|].
  intros Hnot. cbn [fold_left].
  assert (escape_pass s c = s) as -> by (apply replace_absent, Hnot; left).
  apply IH. intros d Hd. apply Hnot. by right.
Qed.

Lemma escape_pass_pointwise c s :
  escape_pass s c = flat_map (fun y => escape_pass [y] c) s.
Proof.
  unfold escape_pass, replace. induction s as [|y s IH]; [done|].
  simpl. rewrite app_nil_r. f_equal. exact IH.
Qed.

(** The passes, one per character of the list, act on each character of
    the text on its own. *)
Lemma escape_passes_pointwise chars s :
  fold_left escape_pass chars s =
  flat_map (fun x => fold_left escape_pass chars [x]) s.
Proof.
  revert s. induction chars as [|c chars IH]; intros s.
  - simpl. induction s as [|x s IHs]; [done|]. simpl. by rewrite <- IHs.
  - simpl. rewrite IH, (escape_pass_pointwise c s), flat_map_flat_map.
    apply flat_map_ext. intros x. symmetry. apply IH.
Qed.

Lemma escape_passes_single chars x :
  NoDup chars -> BACKSLASH ∉ chars ->
  fold_left escape_pass chars [x] =
    if bool_decide (x ∈ chars) then [BACKSLASH; x] else [x].
Proof.
  intros Hnd Hbs. induction chars as [|c chars IH]; [done|].
  apply NoDup_cons in Hnd as [Hc Hnd].
  apply not_elem_of_cons in Hbs as [Hbc Hbs].
  cbn [fold_left].
  assert (escape_pass [x] c =
          if decide (x = c) then [BACKSLASH; c] else [x]) as ->
    by (unfold escape_pass, replace; simpl; by rewrite app_nil_r).
  destruct (decide (x = c)) as [->|Hxc].
  - rewrite bool_decide_eq_true_2 by left.
    apply escape_passes_absent. intros d Hd Hin.
    apply elem_of_cons in Hin as [->|Hin]; [done|].
    apply list_elem_of_singleton in Hin as ->. done.
  - rewrite IH by done.
    destruct (decide (x ∈ chars)) as [Hin|Hin].
    + rewrite !bool_decide_eq_true_2; [done|by right|done].
    + rewrite !bool_decide_eq_false_2; [done| |done].
      intros [->|?]%elem_of_cons; done.
Qed.

Lemma markdown_chars_metacharacters : markdown_chars = markdown_metacharacters.
Proof. reflexivity. Qed.

Lemma markdown_chars_NoDup : NoDup markdown_chars.
Proof. apply (bool_decide_unpack _). vm_compute. exact I. Qed.

Lemma markdown_chars_no_backslash : BACKSLASH ∉ markdown_chars.
Proof. apply (bool_decide_unpack _). vm_compute. exact I. Qed.

Lemma escape_passes_escape_markdown text :
  fold_left escape_pass markdown_chars text = escape_markdown text.
Proof.
  rewrite escape_passes_pointwise. unfold escape_markdown.
  apply flat_map_ext. intros x.
  rewrite escape_passes_single
    by auto using markdown_chars_NoDup, markdown_chars_no_backslash.
  by rewrite markdown_chars_metacharacters.
Qed.

Lemma replace_backslash_strip text :
  replace BACKSLASH [] text = strip_backslashes text.
Proof.
  unfold replace, strip_backslashes.
  induction text as [|c text IH]; [done|].
  simpl. destruct (decide (c = BACKSLASH)) as [->|Hne].
  - by rewrite bool_decide_eq_true_2.
  - rewrite bool_decide_eq_false_2 by done. simpl. by rewrite IH.
Qed.

(** C8. [clean_text] collapses every run of whitespace (newlines too) to
    one space and trims; before that it prefixes each of
    [_ * [ ] ( ) ~ ` > # + - = | { } . !] with a backslash when
    [for_markdown] is set and removes every backslash otherwise. On the
    two sample inputs it gives ["a b c"] and ["a\.b\!"]. *)
Theorem clean_text_normalizes :
  (forall text,
     clean_text text true = normalize_whitespace (escape_markdown text)) /\
  (forall text,
     clean_text text false = normalize_whitespace (strip_backslashes text)) /\
  clean_text (str "a   b" ++ [NEWLINE] ++ str "c") false = str "a b c" /\
  clean_text (str "a.b!") true = str "a\.b\!".
Proof.
  split; [|split; [|split]].
  - intros text. unfold clean_text.
    rewrite <- join_split_normalize. f_equal. f_equal.
    apply escape_passes_escape_markdown.
  - intros text. unfold clean_text.
    by rewrite <- join_split_normalize, replace_backslash_strip.
  - vm_compute. reflexivity.
  - vm_compute. reflexivity.
Qed.

End CleanText.

(** ** Dictionaries *)

Section DictFacts.
Context {K V : Type} `{EqDecision K}.
Implicit Types (k : K) (v : V) (d : Dict.dict K V).

Lemma get_set_eq k v d : Dict.get k (Dict.set k v d) = Some v.
Proof.
  induction d as [|[k' v'] d IH]; simpl.
  - by rewrite decide_True.
  - destruct (decide (k = k')) as [->|Hne]; simpl.
    + by rewrite decide_True.
    + by rewrite decide_False.
Qed.

Lemma get_set_ne k k' v d :
  k <> k' -> Dict.get k' (Dict.set k v d) = Dict.get k' d.
Proof.
  intros Hne. induction d as [|[k0 v0] d IH]; simpl.
  - by rewrite decide_False.
  - destruct (decide (k = k0)) as [->|Hne0]; simpl.
    + by rewrite !decide_False.
    + destruct (decide (k' = k0)); [done|apply IH].
Qed.

Lemma elem_of_keys k d : k ∈ Dict.keys d <-> is_Some (Dict.get k d).
Proof.
  induction d as [|[k' v'] d IH]; simpl.
  - rewrite elem_of_nil. split; [done|]. by intros [? ?].
  - rewrite elem_of_cons. simpl. destruct (decide (k = k')) as [->|Hne].
    + split; eauto.
    + rewrite IH. split; [by intros [?|?]|by right].
Qed.

Lemma keys_set_present k v d :
  k ∈ Dict.keys d -> Dict.keys (Dict.set k v d) = Dict.keys d.
Proof.
  induction d as [|[k' v'] d IH]; simpl.
  - by intros ?%elem_of_nil.
  - intros Hin. destruct (decide (k = k')) as [->|Hne]; simpl; [done|].
    apply elem_of_cons in Hin as [?|Hin]; [done|].
    f_equal. by apply IH.
Qed.

Lemma keys_set_absent k v d :
  k ∉ Dict.keys d -> Dict.keys (Dict.set k v d) = Dict.keys d ++ [k].
Proof.
  induction d as [|[k' v'] d IH]; simpl; [done|].
  intros [Hne Hnot]%not_elem_of_cons.
  rewrite decide_False by done. simpl. f_equal. by apply IH.
Qed.

Lemma elem_of_set k v d (kv : K * V) :
  kv ∈ Dict.set k v d -> kv = (k, v) \/ kv ∈ d.
Proof.
  induction d as [|[k' v'] d IH]; simpl.
  - intros ->%list_elem_of_singleton. by left.
  - destruct (decide (k = k')) as [->|Hne].
    + intros [->|Hin]%elem_of_cons; [by left|right; by right].
    + intros [->|Hin]%elem_of_cons; [right; by left|].
      destruct (IH Hin) as [->|?]; [by left|right; by right].
Qed.

Lemma get_fold_set (f : K -> V) ks k d :
  Dict.get k (fold_left (fun d k => Dict.set k (f k) d) ks d) =
    if decide (k ∈ ks) then Some (f k) else Dict.get k d.
Proof.
  revert d. induction ks as [|k0 ks IH]; intros d; cbn [fold_left].
  - destruct (decide (k ∈ [])) as [Hin|]; [by apply elem_of_nil in Hin|done].
  - rewrite IH. destruct (decide (k ∈ ks)) as [Hin|Hnot].
    + by rewrite decide_True by (by right).
    + destruct (decide (k = k0)) as [->|Hne].
      * rewrite decide_True by left. apply get_set_eq.
      * rewrite decide_False by (intros [?|?]%elem_of_cons; done).
        by apply get_set_ne.
Qed.

Lemma get_comprehension (f : K -> V) ks k :
  Dict.get k (Dict.comprehension f ks) =
    if decide (k ∈ ks) then Some (f k) else None.
Proof. apply get_fold_set. Qed.

Lemma keys_fold_set (f : K -> V) ks d :
  NoDup (Dict.keys d ++ ks) ->
  Dict.keys (fold_left (fun d k => Dict.set k (f k) d) ks d) = Dict.keys d ++ ks.
Proof.
  revert d. induction ks as [|k ks IH]; intros d Hnd; simpl.
  - by rewrite app_nil_r.
  - assert (k ∉ Dict.keys d) as Hk.
    { apply NoDup_app in Hnd as (_ & Hdis & _). intros Hin.
      apply (Hdis _ Hin). left. }
    rewrite IH; rewrite keys_set_absent by done.
    + by rewrite <- app_assoc.
    + by rewrite <- app_assoc.
Qed.

Lemma keys_comprehension (f : K -> V) ks :
  NoDup ks -> Dict.keys (Dict.comprehension f ks) = ks.
Proof. intros Hnd. by apply (keys_fold_set f ks []). Qed.

Lemma elem_of_fold_set (f : K -> V) ks d (kv : K * V) :
  kv ∈ fold_left (fun d k => Dict.set k (f k) d) ks d ->
  kv ∈ d \/ (kv.1 ∈ ks /\ kv.2 = f kv.1).
Proof.
  revert d. induction ks as [|k ks IH]; intros d; simpl; [by left|].
  intros [Hin|[Hin Hv]]%IH.
  - apply elem_of_set in Hin as [->|Hin]; [right; simpl|by left].
    split; [left|done].
  - right. split; [by right|done].
Qed.

Lemma values_comprehension (f : K -> V) ks v :
  v ∈ Dict.values (Dict.comprehension f ks) -> exists k, k ∈ ks /\ v = f k.
Proof.
  unfold Dict.values. intros Hin.
  apply list_elem_of_In, in_map_iff in Hin as ([k v'] & <- & Hin).
  apply list_elem_of_In, elem_of_fold_set in Hin as [Hin|[Hk Hv]].
  - by apply elem_of_nil in Hin.
  - eauto.
Qed.

End DictFacts.

(** ** The change detector *)

Lemma filter_not_in_all (l prev : list Item) :
  (forall item, item ∈ l -> item ∈ prev) ->
  List.filter (fun item => bool_decide (item ∉ prev)) l = [].
Proof.
  induction l as [|x l IH]; intros Hall; [done|].
  simpl. rewrite bool_decide_eq_false_2.
  - apply IH. intros item Hin. apply Hall. by right.
  - intros Hnot. apply Hnot, Hall. left.
Qed.

Lemma filter_sublist {A} (p : A -> bool) (l : list A) :
  sublist (List.filter p l) l.
Proof.
  induction l as [|x l IH]; simpl; [constructor|].
  destruct (p x); by constructor.
Qed.

Lemma get_find_new_notifications current previous section :
  Dict.get section (find_new_notifications current previous) =
    List.filter (fun item => bool_decide (item ∉ Dict.get_or section [] previous))
      <$> Dict.get section current.
Proof.
  unfold find_new_notifications. rewrite get_comprehension.
  destruct (decide (section ∈ Dict.keys current)) as [Hin|Hnot].
  - apply elem_of_keys in Hin as [items Hget].
    rewrite Hget. simpl. do 2 f_equal. unfold Dict.get_or. by rewrite Hget.
  - destruct (Dict.get section current) eqn:Hget; [|done].
    exfalso. apply Hnot, elem_of_keys. eauto.
Qed.

(** C1. For each category of the current snapshot the delta holds the
    current items of that category that equal no previous item of the same
    category, in their order in the current snapshot; a category that the
    previous snapshot lacks counts as empty there, so all its current
    items are in the delta. *)
Theorem find_new_notifications_delta (current previous : Snapshot) (section : pystr) :
  let previous_items := Dict.get_or section [] previous in
  Dict.get section (find_new_notifications current previous) =
    List.filter (fun item => bool_decide (item ∉ previous_items))
      <$> Dict.get section current
  /\ (forall items,
        Dict.get section current = Some items ->
        exists new_items,
          Dict.get section (find_new_notifications current previous) = Some new_items
          /\ sublist new_items items
          /\ forall item, item ∈ new_items <-> item ∈ items /\ item ∉ previous_items)
  /\ (Dict.get section previous = None ->
      Dict.get section (find_new_notifications current previous) =
        Dict.get section current).
Proof.
  intros previous_items. split; [apply get_find_new_notifications|split].
  - intros items Hget. eexists. split; [|split].
    + by rewrite get_find_new_notifications, Hget.
    + apply filter_sublist.
    + intros item. rewrite list_elem_of_In, filter_In, <- list_elem_of_In.
      rewrite bool_decide_eq_true. tauto.
  - intros Hnone. rewrite get_find_new_notifications.
    unfold Dict.get_or. rewrite Hnone.
    destruct (Dict.get section current) as [items|]; [|done].
    cbn [fmap option_fmap option_map]. f_equal.
    clear. induction items as [|x l IH]; [done|].
    cbn [List.filter]. rewrite bool_decide_eq_true_2 by apply not_elem_of_nil.
    by rewrite IH.
Qed.

(** C9. Diffing a snapshot against itself maps each of its categories to
    the empty sequence. *)
Theorem find_new_notifications_self (A : Snapshot) :
  (forall section,
     section ∈ Dict.keys A ->
     Dict.get section (find_new_notifications A A) = Some [])
  /\ (forall items,
        items ∈ Dict.values (find_new_notifications A A) -> items = []).
Proof.
  split.
  - intros section [items Hget]%elem_of_keys.
    rewrite get_find_new_notifications, Hget. simpl. f_equal.
    apply filter_not_in_all. unfold Dict.get_or. by rewrite Hget.
  - intros items (section & Hin & ->)%values_comprehension.
    by apply filter_not_in_all.
Qed.

(** ** Coroutines *)

Lemma bind_run {A B} (m : M A) (k : A -> M B) w h :
  (m ≫= k) w h =
    match m w h with
    | (t, inl e) => (t, inl e)
    | (t, inr a) => match k a w (h ++ t) with (t', r) => (t ++ t', r) end
    end.
Proof. reflexivity. Qed.

Lemma calls_app t1 t2 : calls (t1 ++ t2) = calls t1 ++ calls t2.
Proof. unfold calls. apply omap_app. Qed.

Lemma posted_bodies_app t1 t2 :
  posted_bodies (t1 ++ t2) = posted_bodies t1 ++ posted_bodies t2.
Proof. unfold posted_bodies. by rewrite calls_app, omap_app. Qed.

(** ** [WhatsAppSender.send_items] *)

Section WhatsAppFacts.
Variable self : WhatsAppSender.t.
Variable spacing : Q.
Variable w : world.

Local Abbreviation post body :=
  (session_post (WhatsAppSender._api_url self)
                (WhatsAppSender.payload self body) (WhatsAppSender.headers self)).
Local Abbreviation sent := (Log INFO (str "WhatsApp message sent successfully")).
Local Abbreviation failed txt :=
  (Log ERROR (str "Failed to send WhatsApp message: " ++ txt)).
Local Abbreviation pause := (Call (asyncio_sleep spacing)).
Local Abbreviation round body :=
  (WhatsAppSender._send_one self body;; await (asyncio_sleep spacing)).
Local Abbreviation loop messages :=
  (for_each messages (fun message : pystr => round message)).

(** One round of the loop, case by case on what the world answers. *)
Lemma round_run body h :
  round body w h =
    match w h (post body) with
    | inl e => ([Call (post body)], inl e)
    | inr resp =>
        if decide (status resp = 200%Z) then
          ([Call (post body); sent; pause],
           w (h ++ [Call (post body); sent]) (asyncio_sleep spacing))
        else
          match text resp with
          | inl e => ([Call (post body)], inl e)
          | inr txt =>
              ([Call (post body); failed txt; pause],
               w (h ++ [Call (post body); failed txt]) (asyncio_sleep spacing))
          end
    end.
Proof.
  unfold WhatsAppSender._send_one.
  rewrite bind_run. rewrite bind_run. unfold await at 1.
  destruct (w h (post body)) as [e|resp]; [done|].
  destruct (decide (status resp = 200%Z)) as [Hst|Hst].
  - rewrite decide_False by (by intros ?). unfold log, await. simpl.
    by destruct (w _ _).
  - rewrite decide_True by done. rewrite bind_run. unfold lift.
    destruct (text resp) as [e|txt]; [done|].
    unfold log, await. simpl. by destruct (w _ _).
Qed.

Lemma posted_bodies_post body :
  posted_bodies [Call (post body)] = [body].
Proof. reflexivity. Qed.

Lemma loop_cons m ms h :
  loop (m :: ms) w h =
    match round m w h with
    | (t, inl e) => (t, inl e)
    | (t, inr _) =>
        match loop ms w (h ++ t) with (t', r) => (t ++ t', r) end
    end.
Proof. reflexivity. Qed.

(** A round that completes leaves a post, one log line and the pause. *)
Lemma round_completes body h t :
  round body w h = (t, inr tt) ->
  exists lvl msg, t = [Call (post body); Log lvl msg; pause].
Proof.
  rewrite round_run. destruct (w h (post body)) as [e|resp]; [done|].
  destruct (decide _); [intros [= <- _]; eauto|].
  destruct (text resp); [done|]. intros [= <- _]; eauto.
Qed.

(** A round that raises stops at its post, or at its pause. *)
Lemma round_raises body h t e :
  round body w h = (t, inl e) ->
  t = [Call (post body)] \/
  exists lvl msg, t = [Call (post body); Log lvl msg; pause].
Proof.
  rewrite round_run. destruct (w h (post body)) as [e'|resp].
  - intros [= <- _]. by left.
  - destruct (decide _); [intros [= <- _]; eauto|].
    destruct (text resp); intros [= <- _]; eauto.
Qed.

(** Whatever the world answers, the posts made are those of an initial
    part of the messages, in order. *)
Lemma loop_posts_prefix messages h t r :
  loop messages w h = (t, r) ->
  exists n, posted_bodies t = take n messages.
Proof.
  revert h t r. induction messages as [|m ms IH]; intros h t r.
  - intros [= <- _]. by exists 0%nat.
  - rewrite loop_cons. destruct (round m w h) as [tb [e|[]]] eqn:Hround.
    + intros [= <- _]. exists 1%nat.
      apply round_raises in Hround as [->|(lvl & msg & ->)]; by vm_compute.
    + destruct (loop ms w (h ++ tb)) as [t' r'] eqn:Hrest.
      intros [= <- _]. destruct (IH _ _ _ Hrest) as [n Hn].
      apply round_completes in Hround as (lvl & msg & ->).
      exists (S n). rewrite posted_bodies_app, Hn. by vm_compute.
Qed.

(** Where a post can sit in the trace of a round followed by more. *)
Lemma round_trace_split body lvl msg rest p url json hdrs q :
  [Call (post body); Log lvl msg; pause] ++ rest =
    p ++ Call (session_post url json hdrs) :: q ->
  (p = [] /\ session_post url json hdrs = post body
          /\ q = Log lvl msg :: pause :: rest) \/
  (exists p', p = [Call (post body); Log lvl msg; pause] ++ p'
              /\ rest = p' ++ Call (session_post url json hdrs) :: q).
Proof.
  destruct p as [|e1 [|e2 [|e3 p']]]; simpl.
  - intros [= <- <- <- <-]. by left.
  - by intros [=].
  - by intros [=].
  - intros [= <- <- <- ->]. right. by exists p'.
Qed.

(** The post that raises is the last thing the call does: the exception
    leaves the loop and the messages after it are not posted. *)
Lemma loop_post_raises messages h t r p url json hdrs q e :
  loop messages w h = (t, r) ->
  t = p ++ Call (session_post url json hdrs) :: q ->
  w (h ++ p) (session_post url json hdrs) = inl e ->
  q = [] /\ r = inl e /\
  exists before body after,
    messages = before ++ body :: after /\ posted_bodies t = before ++ [body].
Proof.
  revert h t r p. induction messages as [|m ms IH]; intros h t r p.
  { intros [= <- _]. by destruct p. }
  rewrite loop_cons.
  destruct (round m w h) as [tb rb] eqn:Hround.
  pose proof Hround as Hrun. rewrite round_run in Hrun.
  destruct rb as [e0|[]].
  - intros [= <- <-] Ht Hw.
    destruct (round_raises _ _ _ _ Hround) as [->|(lvl & msg & ->)].
    + destruct p as [|? [|? ?]]; [|done|done]. simpl in Ht.
      injection Ht as <- <- <- <-. rewrite app_nil_r in Hw.
      rewrite Hw in Hrun. injection Hrun as <-.
      split; [done|split; [done|]]. by exists [], m, ms.
    + rewrite <- (app_nil_r [_; _; _]) in Ht.
      apply round_trace_split in Ht as [(-> & Heq & _)|(p' & _ & Hnil)].
      * injection Heq as -> -> ->. rewrite app_nil_r in Hw.
        rewrite Hw in Hrun. by injection Hrun.
      * by destruct p'.
  - destruct (loop ms w (h ++ tb)) as [t' r'] eqn:Hrest.
    intros [= <- <-] Ht Hw.
    destruct (round_completes _ _ _ Hround) as (lvl & msg & ->).
    apply round_trace_split in Ht as [(-> & Heq & _)|(p' & -> & Ht')].
    + injection Heq as -> -> ->. rewrite app_nil_r in Hw.
      rewrite Hw in Hrun. by injection Hrun.
    + rewrite app_assoc in Hw.
      destruct (IH _ _ _ _ Hrest Ht' Hw) as (-> & -> & before & body & after & -> & Hposted).
      split; [done|split; [done|]].
      exists (m :: before), body, after. split; [done|].
      rewrite posted_bodies_app, Hposted. by vm_compute.
Qed.

(** A post answered with a status other than 200 is followed by the error
    line and the pause, provided the body of the response can be read. *)
Lemma loop_post_failed messages h t r p url json hdrs q resp txt :
  loop messages w h = (t, r) ->
  t = p ++ Call (session_post url json hdrs) :: q ->
  w (h ++ p) (session_post url json hdrs) = inr resp ->
  status resp <> 200%Z ->
  text resp = inr txt ->
  exists q', q = failed txt :: pause :: q'.
Proof.
  revert h t r p. induction messages as [|m ms IH]; intros h t r p.
  { intros [= <- _]. by destruct p. }
  rewrite loop_cons.
  destruct (round m w h) as [tb rb] eqn:Hround.
  pose proof Hround as Hrun. rewrite round_run in Hrun.
  intros Hloop Ht Hw Hst Htxt.
  assert (p = [] -> session_post url json hdrs = post m ->
          exists tail, tb = Call (post m) :: failed txt :: pause :: tail) as Hfirst.
  { intros -> Heq. injection Heq as -> -> ->. rewrite app_nil_r in Hw.
    rewrite Hw in Hrun. rewrite decide_False in Hrun by done.
    rewrite Htxt in Hrun. injection Hrun as <- _. by exists []. }
  destruct rb as [e0|[]].
  - injection Hloop as <- <-.
    destruct (round_raises _ _ _ _ Hround) as [->|(lvl & msg & ->)].
    + destruct p as [|? [|? ?]]; [|done|done]. simpl in Ht.
      injection Ht as <- <- <- <-.
      by destruct (Hfirst eq_refl eq_refl) as [tail ?].
    + rewrite <- (app_nil_r [_; _; _]) in Ht.
      apply round_trace_split in Ht as [(-> & Heq & ->)|(p' & _ & Hnil)].
      * destruct (Hfirst eq_refl Heq) as [tail [= -> -> <-]]. eauto.
      * by destruct p'.
  - destruct (loop ms w (h ++ tb)) as [t' r'] eqn:Hrest.
    injection Hloop as <- <-.
    destruct (round_completes _ _ _ Hround) as (lvl & msg & ->).
    apply round_trace_split in Ht as [(-> & Heq & ->)|(p' & -> & Ht')].
    + destruct (Hfirst eq_refl Heq) as [tail [= -> -> <-]]. eauto.
    + rewrite app_assoc in Hw. by apply (IH _ _ _ _ Hrest Ht' Hw).
Qed.

(** The loop only posts and pauses. *)
Lemma loop_calls_kind messages h t r :
  loop messages w h = (t, r) ->
  Forall (fun c => is_post c || is_sleep c = true) (calls t).
Proof.
  revert h t r. induction messages as [|m ms IH]; intros h t r.
  { intros [= <- _]. constructor. }
  rewrite loop_cons. destruct (round m w h) as [tb [e|[]]] eqn:Hround.
  - intros [= <- _].
    apply round_raises in Hround as [->|(lvl & msg & ->)];
      repeat constructor.
  - destruct (loop ms w (h ++ tb)) as [t' r'] eqn:Hrest.
    intros [= <- _]. apply round_completes in Hround as (lvl & msg & ->).
    rewrite calls_app. apply Forall_app. split; [repeat constructor|].
    by apply (IH _ _ _ Hrest).
Qed.

(** When every post gets a response whose body can be read and no pause
    is interrupted, the loop posts every message and returns. *)
Lemma loop_completes messages h :
  (forall h url json hdrs,
     exists st txt, w h (session_post url json hdrs) = inr (mkResponse st (inr txt))) ->
  (forall h, w h (asyncio_sleep spacing) = inr tt) ->
  exists t,
    loop messages w h = (t, inr tt)
    /\ calls t = flat_map (fun body => [post body; asyncio_sleep spacing]) messages
    /\ posted_bodies t = messages.
Proof.
  intros Hpost Hsleep. revert h.
  induction messages as [|m ms IH]; intros h; [by exists []|].
  rewrite loop_cons, round_run.
  destruct (Hpost h (WhatsAppSender._api_url self) (WhatsAppSender.payload self m)
              (WhatsAppSender.headers self)) as (st & txt & ->).
  simpl status. simpl text.
  destruct (decide (st = 200%Z)) as [Hst|Hst]; rewrite Hsleep.
  - destruct (IH (h ++ [Call (post m); sent; pause])) as (t' & -> & Hcalls & Hbodies).
    eexists. split; [done|]. rewrite calls_app, posted_bodies_app, Hcalls, Hbodies.
    split; by vm_compute.
  - destruct (IH (h ++ [Call (post m); failed txt; pause])) as (t' & -> & Hcalls & Hbodies).
    eexists. split; [done|]. rewrite calls_app, posted_bodies_app, Hcalls, Hbodies.
    split; by vm_compute.
Qed.

(** A post answered with a status other than 200 whose body cannot be
    read is the last thing the loop does: the exception of the read
    leaves it, and the messages after that one are not posted. *)
Lemma loop_body_unreadable messages h t r p url json hdrs q resp e :
  loop messages w h = (t, r) ->
  t = p ++ Call (session_post url json hdrs) :: q ->
  w (h ++ p) (session_post url json hdrs) = inr resp ->
  status resp <> 200%Z ->
  text resp = inl e ->
  q = [] /\ r = inl e /\
  exists before body after,
    messages = before ++ body :: after /\ posted_bodies t = before ++ [body].
Proof.
  revert h t r p. induction messages as [|m ms IH]; intros h t r p.
  { intros [= <- _]. by destruct p. }
  rewrite loop_cons.
  destruct (round m w h) as [tb rb] eqn:Hround.
  pose proof Hround as Hrun. rewrite round_run in Hrun.
  intros Hloop Ht Hw Hst Htxt.
  assert (p = [] -> session_post url json hdrs = post m ->
          tb = [Call (post m)] /\ rb = inl e) as Hfirst.
  { intros -> Heq. injection Heq as -> -> ->. rewrite app_nil_r in Hw.
    rewrite Hw in Hrun. rewrite decide_False in Hrun by done.
    rewrite Htxt in Hrun. by injection Hrun as <- <-. }
  destruct rb as [e0|[]].
  - injection Hloop as <- <-.
    destruct (round_raises _ _ _ _ Hround) as [->|(lvl & msg & ->)].
    + destruct p as [|? [|? ?]]; [|done|done]. simpl in Ht.
      injection Ht as <- <- <- <-.
      destruct (Hfirst eq_refl eq_refl) as [_ [= ->]].
      split; [done|split; [done|]]. by exists [], m, ms.
    + rewrite <- (app_nil_r [_; _; _]) in Ht.
      apply round_trace_split in Ht as [(-> & Heq & _)|(p' & _ & Hnil)].
      * by destruct (Hfirst eq_refl Heq) as [[=] _].
      * by destruct p'.
  - destruct (loop ms w (h ++ tb)) as [t' r'] eqn:Hrest.
    injection Hloop as <- <-.
    destruct (round_completes _ _ _ Hround) as (lvl & msg & ->).
    apply round_trace_split in Ht as [(-> & Heq & _)|(p' & -> & Ht')].
    + by destruct (Hfirst eq_refl Heq) as [[=] _].
    + rewrite app_assoc in Hw.
      destruct (IH _ _ _ _ Hrest Ht' Hw Hst Htxt)
        as (-> & -> & before & body & after & -> & Hposted).
      split; [done|split; [done|]].
      exists (m :: before), body, after. split; [done|].
      rewrite posted_bodies_app, Hposted. by vm_compute.
Qed.

(** When every post is answered, every answer with a status other than
    200 has a body that can be read, and no pause is interrupted, the loop
    posts every message and returns. *)
Lemma loop_completes_readable messages h :
  (forall h url json hdrs,
     exists resp,
       w h (session_post url json hdrs) = inr resp
       /\ (status resp <> 200%Z -> exists txt, text resp = inr txt)) ->
  (forall h, w h (asyncio_sleep spacing) = inr tt) ->
  exists t,
    loop messages w h = (t, inr tt)
    /\ calls t = flat_map (fun body => [post body; asyncio_sleep spacing]) messages
    /\ posted_bodies t = messages.
Proof.
  intros Hpost Hsleep. revert h.
  induction messages as [|m ms IH]; intros h; [by exists []|].
  rewrite loop_cons, round_run.
  destruct (Hpost h (WhatsAppSender._api_url self) (WhatsAppSender.payload self m)
              (WhatsAppSender.headers self)) as (resp & -> & Hread).
  destruct (decide (status resp = 200%Z)) as [Hst|Hst].
  - rewrite Hsleep.
    destruct (IH (h ++ [Call (post m); sent; pause])) as (t' & -> & Hcalls & Hbodies).
    eexists. split; [done|]. rewrite calls_app, posted_bodies_app, Hcalls, Hbodies.
    split; by vm_compute.
  - destruct (Hread Hst) as [txt ->]. rewrite Hsleep.
    destruct (IH (h ++ [Call (post m); failed txt; pause])) as (t' & -> & Hcalls & Hbodies).
    eexists. split; [done|]. rewrite calls_app, posted_bodies_app, Hcalls, Hbodies.
    split; by vm_compute.
Qed.

End WhatsAppFacts.

Section SendItemsFacts.
Variable self : WhatsAppSender.t.
Variable spacing : Q.
Variable w : world.

Lemma send_items_run messages h :
  WhatsAppSender.send_items self messages spacing w h =
    let received :=
      Log INFO (str "WhatsAppSender received "
                  ++ str_of_int (Z.of_nat (length messages))
                  ++ str " messages to send.") in
    match for_each messages
            (fun message =>
               WhatsAppSender._send_one self message;;
               await (asyncio_sleep spacing)) w (h ++ [received]) with
    | (t, r) => (received :: t, r)
    end.
Proof. reflexivity. Qed.

End SendItemsFacts.

(** C7. When every post is answered, every answer with a status other
    than 200 has a body that can be read, and no pause is interrupted,
    [send_items] makes one post per message, in the order of the
    messages, each followed by the pause (0.7 seconds by default), and
    returns. In every run, a post answered with a status other than 200
    whose body can be read is followed by the error line and the pause,
    and the later messages are posted all the same. A post answered with
    a status other than 200 whose body cannot be read is the last event:
    the exception of the read leaves [send_items], no error line is
    logged, and the messages after that one are not posted. *)
Theorem send_items_attempts (self : WhatsAppSender.t) (messages : list pystr)
    (spacing : Q) (w : world) :
  let t := trace (WhatsAppSender.send_items self messages spacing) w in
  ((forall h url json hdrs,
      exists resp,
        w h (session_post url json hdrs) = inr resp
        /\ (status resp <> 200%Z -> exists txt, text resp = inr txt)) ->
   (forall h, w h (asyncio_sleep spacing) = inr tt) ->
   outcome (WhatsAppSender.send_items self messages spacing) w = inr tt
   /\ calls t =
        flat_map (fun body =>
                    [session_post (WhatsAppSender._api_url self)
                       (WhatsAppSender.payload self body)
                       (WhatsAppSender.headers self);
                     asyncio_sleep spacing]) messages
   /\ posted_bodies t = messages)
  /\ (forall p url json hdrs q resp txt,
        t = p ++ Call (session_post url json hdrs) :: q ->
        w p (session_post url json hdrs) = inr resp ->
        status resp <> 200%Z ->
        text resp = inr txt ->
        exists q',
          q = Log ERROR (str "Failed to send WhatsApp message: " ++ txt)
                :: Call (asyncio_sleep spacing) :: q')
  /\ (forall p url json hdrs q resp e,
        t = p ++ Call (session_post url json hdrs) :: q ->
        w p (session_post url json hdrs) = inr resp ->
        status resp <> 200%Z ->
        text resp = inl e ->
        q = []
        /\ outcome (WhatsAppSender.send_items self messages spacing) w = inl e
        /\ exists before body after,
             messages = before ++ body :: after
             /\ posted_bodies t = before ++ [body])
  /\ WhatsAppSender.default_spacing_seconds = (7 # 10)%Q.
Proof.
  intros t. subst t. unfold trace, outcome, run.
  rewrite send_items_run. cbv zeta.
  destruct (for_each messages _ w _) as [t r] eqn:Hloop.
  simpl fst. simpl snd.
  split; [|split; [|split; [|reflexivity]]].
  - intros Hpost Hsleep.
    destruct (loop_completes_readable self spacing w messages
                ([] ++ [Log INFO (str "WhatsAppSender received "
                                    ++ str_of_int (Z.of_nat (length messages))
                                    ++ str " messages to send.")])
                Hpost Hsleep) as (t' & Hloop' & Hcalls & Hbodies).
    rewrite Hloop' in Hloop. injection Hloop as <- <-.
    split; [done|]. split; [exact Hcalls|exact Hbodies].
  - intros p url json hdrs q resp txt Ht Hw Hst Htxt.
    destruct p as [|first p]; [done|]. injection Ht as <- Ht.
    exact (loop_post_failed self spacing w messages _ _ _ _ _ _ _ _ _ txt
             Hloop Ht Hw Hst Htxt).
  - intros p url json hdrs q resp e Ht Hw Hst Htxt.
    destruct p as [|first p]; [done|]. injection Ht as <- Ht.
    destruct (loop_body_unreadable self spacing w messages _ _ _ _ _ _ _ _ _ _
                Hloop Ht Hw Hst Htxt)
      as (-> & -> & before & body & after & -> & Hposted).
    split; [done|]. split; [done|].
    exists before, body, after. split; [done|]. exact Hposted.
Qed.

(** C10. When the post for one message raises, that post is the last
    thing [send_items] does: the exception leaves [send_items], and the
    messages after that one are never posted. *)
Theorem send_items_post_raises (self : WhatsAppSender.t) (messages : list pystr)
    (spacing : Q) (w : world) p url json hdrs q e :
  trace (WhatsAppSender.send_items self messages spacing) w =
    p ++ Call (session_post url json hdrs) :: q ->
  w p (session_post url json hdrs) = inl e ->
  q = []
  /\ outcome (WhatsAppSender.send_items self messages spacing) w = inl e
  /\ exists before body after,
       messages = before ++ body :: after
       /\ posted_bodies (trace (WhatsAppSender.send_items self messages spacing) w)
          = before ++ [body].
Proof.
  unfold trace, outcome, run. rewrite send_items_run. cbv zeta.
  destruct (for_each messages _ w _) as [t r] eqn:Hloop.
  simpl fst. simpl snd. intros Ht Hw.
  destruct p as [|first p]; [done|]. injection Ht as <- Ht.
  destruct (loop_post_raises self spacing w messages _ _ _ _ _ _ _ _ _
              Hloop Ht Hw) as (-> & -> & before & body & after & -> & Hposted).
  split; [done|]. split; [done|].
  exists before, body, after. split; [done|].
  exact Hposted.
Qed.

(** ** The parser *)

Lemma fold_left_invariant {A B} (P : A -> Prop) (f : A -> B -> A) l a :
  (forall a b, P a -> P (f a b)) -> P a -> P (fold_left f l a).
Proof.
  intros Hstep. revert a. induction l as [|b l IH]; intros a Ha; [done|].
  simpl. by apply IH, Hstep.
Qed.

Lemma empty_notifications_keys : Dict.keys empty_notifications = categories.
Proof. reflexivity. Qed.

Lemma append_entry_keys section_key entry st :
  Dict.keys (fst (append_entry section_key entry st)) = Dict.keys (fst st).
Proof.
  unfold append_entry.
  destruct (Dict.get section_key (fst st)) as [l|] eqn:Hget; [|done].
  simpl. apply keys_set_present, elem_of_keys. eauto.
Qed.

Lemma parse_entry_keys section_key st item :
  Dict.keys (fst (parse_entry section_key st item)) = Dict.keys (fst st).
Proof.
  unfold parse_entry. destruct (parse_item section_key item); [|done|done].
  apply append_entry_keys.
Qed.

Lemma parse_section_keys st section :
  Dict.keys (fst (parse_section st section)) = Dict.keys (fst st).
Proof.
  unfold parse_section.
  destruct (Soup.find _ section); [|done].
  destruct (Dict.get _ sections_map) as [section_key|]; [|done].
  destruct (decide (section_key = [])); [done|].
  destruct (Soup.find_class _ _ section); [|done].
  apply (fold_left_invariant
           (fun st' => Dict.keys (fst st') = Dict.keys (fst st))); [|done].
  intros st' item Hst'. by rewrite parse_entry_keys.
Qed.

(** Whatever the page holds, the parser returns a mapping whose keys are
    the eight categories, in the order of the display that creates it. *)
Lemma parse_soup_keys soup : Dict.keys (fst (parse_soup soup)) = categories.
Proof.
  unfold parse_soup.
  apply (fold_left_invariant (fun st => Dict.keys (fst st) = categories)); [|done].
  intros st section Hst. by rewrite parse_section_keys.
Qed.

Lemma categories_NoDup : NoDup categories.
Proof. apply (bool_decide_unpack _). vm_compute. exact I. Qed.

(** ** One cycle *)

Lemma for_each_log lvl msgs w h :
  for_each msgs (log lvl) w h = (List.map (Log lvl) msgs, inr tt).
Proof.
  revert h. induction msgs as [|msg msgs IH]; intros h; [done|].
  cbn [for_each]. rewrite bind_run. unfold log at 1. by rewrite IH.
Qed.

Lemma find_new_notifications_empty previous :
  find_new_notifications Dict.empty previous = Dict.empty.
Proof. reflexivity. Qed.

Lemma find_new_notifications_keys current previous :
  NoDup (Dict.keys current) ->
  Dict.keys (find_new_notifications current previous) = Dict.keys current.
Proof. intros Hnd. by apply keys_comprehension. Qed.

Section BotFacts.
Variable BeautifulSoup : pystr -> pystr + Soup.node.
Variable self : NotificationBot.
Variable w : world.

Local Abbreviation url := (CLONED_PAGE_URL (config self)).
Local Abbreviation get := (Call (session_get url)).
Local Abbreviation load := (Call storage_load_state).
Local Abbreviation tick := (Call (asyncio_sleep (CHECK_INTERVAL (config self)))).

Lemma get_latest_notifications_run h :
  get_latest_notifications BeautifulSoup self w h =
    match w h (session_get url) with
    | inl (Exception what) =>
        ([get; Log ERROR (str "Fetch error: " ++ what)], inr Dict.empty)
    | inl e => ([get], inl e)
    | inr response =>
        if decide (status response = 200%Z) then
          match text response with
          | inl (Exception what) =>
              ([get; Log ERROR (str "Fetch error: " ++ what)], inr Dict.empty)
          | inl e => ([get], inl e)
          | inr content =>
              match BeautifulSoup content with
              | inl what =>
                  ([get; Log ERROR (str "Fetch error: " ++ what)], inr Dict.empty)
              | inr soup =>
                  (get :: List.map (Log WARNING) (snd (parse_soup soup)),
                   inr (fst (parse_soup soup)))
              end
          end
        else
          ([get; Log ERROR (str "HTTP Error: " ++ str_of_int (status response))],
           inr Dict.empty)
    end.
Proof.
  unfold get_latest_notifications, try_except.
  rewrite bind_run. unfold await at 1.
  destruct (w h (session_get url)) as [[]|response]; [done..|].
  destruct (decide (status response = 200%Z)); [|done].
  rewrite bind_run. unfold lift.
  destruct (text response) as [[]|content]; [done..|].
  unfold parse_content. destruct (BeautifulSoup content) as [what|soup]; [done|].
  rewrite bind_run, for_each_log.
  unfold ret. simpl. by rewrite app_nil_r.
Qed.

Lemma rendered_nonempty render (delta : Delta) :
  any_new delta = true -> exists m ms, rendered render delta = m :: ms.
Proof.
  unfold any_new, rendered, Dict.values, Dict.items.
  induction delta as [|[section items] delta IH]; [done|].
  simpl. destruct items as [|item items]; simpl; [|eauto].
  intros Hany. by apply IH.
Qed.

Lemma check_for_updates_run h :
  check_for_updates BeautifulSoup self w h =
    match get_latest_notifications BeautifulSoup self w h with
    | (t1, inl e) => (t1, inl e)
    | (t1, inr current) =>
        match w (h ++ t1) storage_load_state with
        | inl e => (t1 ++ [load], inl e)
        | inr previous =>
            let new_notifications := find_new_notifications current previous in
            if any_new new_notifications then
              match send_notifications self new_notifications w
                      ((h ++ t1) ++ [load]) with
              | (t2, inl e) => (t1 ++ load :: t2, inl e)
              | (t2, inr _) =>
                  match w ((((h ++ t1) ++ [load]) ++ t2))
                          (storage_save_state current) with
                  | inl e =>
                      (t1 ++ load :: t2 ++ [Call (storage_save_state current)],
                       inl e)
                  | inr _ =>
                      (t1 ++ load :: t2 ++
                         [Call (storage_save_state current);
                          Log INFO (saved_message current)],
                       inr tt)
                  end
              end
            else (t1 ++ [load], inr tt)
        end
    end.
Proof.
  unfold check_for_updates. rewrite bind_run.
  destruct (get_latest_notifications _ _ _ _) as [t1 [e|current]]; [done|].
  rewrite bind_run. unfold await at 1.
  destruct (w (h ++ t1) storage_load_state) as [e|previous]; [done|].
  cbv zeta. destruct (any_new _); [|done].
  rewrite bind_run.
  destruct (send_notifications _ _ _ _) as [t2 [e|[]]]; [done|].
  rewrite bind_run. unfold await at 1.
  destruct (w _ (storage_save_state current)) as [e|[]]; [done|].
  reflexivity.
Qed.

Local Abbreviation attempting :=
  (Log INFO (str "Attempting to send WhatsApp messages...")).

Lemma send_notifications_run (delta : Delta) h :
  send_notifications self delta w h =
    let telegram_messages := rendered format_telegram_message delta in
    let whatsapp_messages := rendered format_whatsapp_message delta in
    match
      match telegram_sender self, telegram_messages with
      | Some _, _ :: _ =>
          ([Call (telegram_send_items telegram_messages)],
           w h (telegram_send_items telegram_messages))
      | _, _ => ([], inr tt)
      end
    with
    | (t1, inl e) => (t1, inl e)
    | (t1, inr _) =>
        match whatsapp_sender self, whatsapp_messages with
        | Some sender, _ :: _ =>
            match WhatsAppSender.send_items sender whatsapp_messages
                    WhatsAppSender.default_spacing_seconds w
                    ((h ++ t1) ++ [attempting]) with
            | (t2, r) => (t1 ++ attempting :: t2, r)
            end
        | _, _ => (t1 ++ [], inr tt)
        end
    end.
Proof.
  unfold send_notifications. cbv zeta. rewrite bind_run.
  destruct (telegram_sender self) as [tg|].
  - destruct (rendered format_telegram_message delta) as [|m ms] eqn:Htg.
    + unfold ret at 1.
      destruct (whatsapp_sender self) as [wa|]; [|done].
      destruct (rendered format_whatsapp_message delta); [done|].
      rewrite bind_run. unfold log at 1.
      by destruct (WhatsAppSender.send_items _ _ _ _ _).
    + unfold TelegramSender.send_items, await at 1.
      destruct (w h _) as [e|[]]; [done|].
      destruct (whatsapp_sender self) as [wa|]; [|done].
      destruct (rendered format_whatsapp_message delta); [done|].
      rewrite bind_run. unfold log at 1.
      by destruct (WhatsAppSender.send_items _ _ _ _ _).
  - unfold ret at 1.
    destruct (whatsapp_sender self) as [wa|]; [|done].
    destruct (rendered format_whatsapp_message delta); [done|].
    rewrite bind_run. unfold log at 1.
    by destruct (WhatsAppSender.send_items _ _ _ _ _).
Qed.

Lemma get_latest_notifications_calls h :
  Forall (fun c => c = session_get url)
         (calls (fst (get_latest_notifications BeautifulSoup self w h))).
Proof.
  assert (forall msgs, calls (List.map (Log WARNING) msgs) = []) as Hwarn.
  { induction msgs as [|msg msgs IH]; [done|exact IH]. }
  rewrite get_latest_notifications_run.
  destruct (w h (session_get url)) as [[]|response]; [by repeat constructor..|].
  destruct (decide _); [|by repeat constructor].
  destruct (text response) as [[]|content]; [by repeat constructor..|].
  destruct (BeautifulSoup content) as [what|soup]; [by repeat constructor|].
  simpl fst. change (calls (get :: ?t)) with (session_get url :: calls t).
  rewrite Hwarn. by repeat constructor.
Qed.

Lemma send_items_calls (sender : WhatsAppSender.t) messages spacing h :
  Forall (fun c => is_post c || is_sleep c = true)
         (calls (fst (WhatsAppSender.send_items sender messages spacing w h))).
Proof.
  rewrite send_items_run. cbv zeta.
  destruct (for_each messages _ w _) as [t r] eqn:Hloop.
  apply (loop_calls_kind sender spacing w messages _ _ _ Hloop).
Qed.

(** The dispatch never writes the state. *)
Lemma send_notifications_no_save (delta : Delta) h :
  Forall (fun c => is_save c = false)
         (calls (fst (send_notifications self delta w h))).
Proof.
  assert (forall sender messages spacing h',
            Forall (fun c => is_save c = false)
              (calls (fst (WhatsAppSender.send_items sender messages spacing w h'))))
    as Hitems.
  { intros. eapply Forall_impl; [apply send_items_calls|].
    by intros []. }
  rewrite send_notifications_run. cbv zeta.
  destruct (telegram_sender self) as [tg|];
    [destruct (rendered format_telegram_message delta) as [|m ms]|].
  - destruct (whatsapp_sender self) as [wa|]; [|constructor].
    destruct (rendered format_whatsapp_message delta) as [|m ms]; [constructor|].
    specialize (Hitems wa (m :: ms) WhatsAppSender.default_spacing_seconds
                  (([] ++ h ++ []) ++ [attempting])).
    rewrite app_nil_r in Hitems |- *. simpl in Hitems.
    destruct (WhatsAppSender.send_items _ _ _ _ _) as [t2 r]. exact Hitems.
  - destruct (w h _) as [e|[]]; [by repeat constructor|].
    destruct (whatsapp_sender self) as [wa|]; [|by repeat constructor].
    destruct (rendered format_whatsapp_message delta) as [|m' ms'];
      [by repeat constructor|].
    specialize (Hitems wa (m' :: ms') WhatsAppSender.default_spacing_seconds
                  ((h ++ [Call (telegram_send_items (m :: ms))]) ++ [attempting])).
    destruct (WhatsAppSender.send_items _ _ _ _ _) as [t2 r].
    constructor; [done|exact Hitems].
  - destruct (whatsapp_sender self) as [wa|]; [|constructor].
    destruct (rendered format_whatsapp_message delta) as [|m ms]; [constructor|].
    specialize (Hitems wa (m :: ms) WhatsAppSender.default_spacing_seconds
                  ((h ++ []) ++ [attempting])).
    destruct (WhatsAppSender.send_items _ _ _ _ _) as [t2 r]. exact Hitems.
Qed.

(** An exception that leaves the dispatch leaves the cycle, and the state
    is not written. *)
Lemma check_for_updates_dispatch_raises h t1 current previous t2 e :
  get_latest_notifications BeautifulSoup self w h = (t1, inr current) ->
  w (h ++ t1) storage_load_state = inr previous ->
  any_new (find_new_notifications current previous) = true ->
  send_notifications self (find_new_notifications current previous) w
    ((h ++ t1) ++ [load]) = (t2, inl e) ->
  check_for_updates BeautifulSoup self w h = (t1 ++ load :: t2, inl e)
  /\ Forall (fun c => is_save c = false) (calls (t1 ++ load :: t2)).
Proof.
  intros Hget Hload Hany Hsend. split.
  - rewrite check_for_updates_run, Hget, Hload. cbv zeta.
    by rewrite Hany, Hsend.
  - rewrite calls_app. apply Forall_app. split.
    + pose proof (get_latest_notifications_calls h) as Hcalls.
      rewrite Hget in Hcalls. eapply Forall_impl; [exact Hcalls|].
      by intros c ->.
    + change (calls (load :: t2)) with (storage_load_state :: calls t2).
      constructor; [done|].
      pose proof (send_notifications_no_save
                    (find_new_notifications current previous)
                    ((h ++ t1) ++ [load])) as Hcalls.
      by rewrite Hsend in Hcalls.
Qed.



Lemma send_items_completes (sender : WhatsAppSender.t) messages spacing h :
  only_fetch_fails w ->
  exists t, WhatsAppSender.send_items sender messages spacing w h = (t, inr tt).
Proof.
  intros (_ & _ & _ & _ & Hpost & Hsleep).
  rewrite send_items_run. cbv zeta.
  destruct (loop_completes sender spacing w messages
              (h ++ [Log INFO (str "WhatsAppSender received "
                                 ++ str_of_int (Z.of_nat (length messages))
                                 ++ str " messages to send.")])
              Hpost (fun h' => Hsleep h' spacing)) as (t & -> & _).
  eauto.
Qed.

Lemma send_notifications_completes (delta : Delta) h :
  only_fetch_fails w ->
  exists t, send_notifications self delta w h = (t, inr tt).
Proof.
  intros Hw. pose proof Hw as (_ & _ & _ & Htg & _).
  rewrite send_notifications_run. cbv zeta.
  assert (forall t1,
            exists t,
              match whatsapp_sender self, rendered format_whatsapp_message delta with
              | Some sender, _ :: _ =>
                  match WhatsAppSender.send_items sender
                          (rendered format_whatsapp_message delta)
                          WhatsAppSender.default_spacing_seconds w
                          ((h ++ t1) ++ [attempting]) with
                  | (t2, r) => (t1 ++ attempting :: t2, r)
                  end
              | _, _ => (t1 ++ [], inr tt)
              end = (t, inr tt)) as Hwa.
  { intros t1. destruct (whatsapp_sender self) as [wa|]; [|eauto].
    destruct (rendered format_whatsapp_message delta) as [|m ms] eqn:Hm; [eauto|].
    destruct (send_items_completes wa (m :: ms)
                WhatsAppSender.default_spacing_seconds
                ((h ++ t1) ++ [attempting]) Hw) as [t2 ->].
    eauto. }
  destruct (telegram_sender self) as [tg|]; [|apply Hwa].
  destruct (rendered format_telegram_message delta) as [|m ms]; [apply Hwa|].
  rewrite Htg. apply Hwa.
Qed.


(** ** The loop *)

Lemma ticker_rounds_S n h :
  ticker_rounds BeautifulSoup self (S n) w h =
    match check_for_updates BeautifulSoup self w h with
    | (t, inl e) => (t, inl e)
    | (t, inr _) =>
        match w (h ++ t) (asyncio_sleep (CHECK_INTERVAL (config self))) with
        | inl e => (t ++ [tick], inl e)
        | inr _ =>
            match ticker_rounds BeautifulSoup self n w ((h ++ t) ++ [tick]) with
            | (t', r) => (t ++ tick :: t', r)
            end
        end
    end.
Proof.
  cbn [ticker_rounds]. rewrite bind_run.
  destruct (check_for_updates _ _ _ _) as [t [e|[]]]; [done|].
  rewrite bind_run. unfold await at 1.
  destruct (w (h ++ t) _) as [e|[]]; [done|].
  by destruct (ticker_rounds _ _ _ _ _).
Qed.





End BotFacts.

(** ** The renderings *)

Lemma elem_of_split_word s word c :
  word ∈ split s -> c ∈ word -> c ∈ s.
Proof.
  revert word. induction s as [|x rest IH]; intros word; simpl.
  { by intros ?%elem_of_nil. }
  destruct (isspace x).
  { intros Hw Hc. right. by apply (IH word). }
  destruct rest as [|d rest'].
  { intros ->%list_elem_of_singleton Hc. done. }
  destruct (isspace d).
  - intros [->|Hw]%elem_of_cons Hc.
    + apply list_elem_of_singleton in Hc as ->. left.
    + right. by apply (IH word).
  - destruct (split (d :: rest')) as [|w0 ws0].
    + intros ->%list_elem_of_singleton Hc. 
      apply list_elem_of_singleton in Hc as ->. left.
    + intros [->|Hw]%elem_of_cons Hc.
      * apply elem_of_cons in Hc as [->|Hc]; [left|right].
        apply (IH w0); [left|done].
      * right. apply (IH word); [by right|done].
Qed.

Lemma elem_of_join sep words c :
  c ∈ join sep words -> c ∈ sep \/ exists word, word ∈ words /\ c ∈ word.
Proof.
  induction words as [|p ps IH]; [by intros ?%elem_of_nil|].
  destruct ps as [|q ps].
  - intros Hc. right. exists p. split; [left|done].
  - rewrite join_cons_cons, !elem_of_app.
    intros [Hc|[Hc|Hc]]; [right|by left|].
    + exists p. split; [left|done].
    + destruct (IH Hc) as [?|(word & Hw & Hcw)]; [by left|right].
      exists word. split; [by right|done].
Qed.

(** The plain variant of [clean_text] leaves no backslash. *)
Lemma clean_text_plain_no_backslash text : BACKSLASH ∉ clean_text text false.
Proof.
  unfold clean_text. rewrite replace_backslash_strip.
  intros [Hsp|(word & Hw & Hc)]%elem_of_join.
  - by apply list_elem_of_singleton in Hsp.
  - apply (elem_of_split_word _ _ _ Hw) in Hc.
    unfold strip_backslashes in Hc.
    apply list_elem_of_In, filter_In in Hc as [_ Hc].
    by rewrite bool_decide_eq_true_2 in Hc.
Qed.

Lemma telegram_rendering_plain section item :
  format_telegram_message section item =
    telegram_rendering (fun t => clean_text t false) section item.
Proof.
  unfold format_telegram_message, telegram_rendering. cbv zeta.
  destruct (date item), (author item);
    rewrite <- ?app_assoc, ?app_nil_r; reflexivity.
Qed.

Ltac no_backslash :=
  repeat first
    [ assumption
    | apply clean_text_plain_no_backslash
    | apply not_elem_of_nil
    | apply not_elem_of_app; split
    | apply not_elem_of_cons; split; [by vm_compute|]
    | by apply (bool_decide_unpack _); vm_compute ].

(** C4. The Telegram rendering passes the category label, the title and,
    when both are present, the date and the author through the plain
    variant of [clean_text] ([for_markdown=False]): no markdown character
    is escaped and a message holds no backslash beyond those of the link.
    The link stands unchanged after the link mark in both renderings. *)
Theorem telegram_message_plain (section : pystr) (item : Item) :
  format_telegram_message section item =
    telegram_rendering (fun t => clean_text t false) section item
  /\ (BACKSLASH ∉ link item ->
      BACKSLASH ∉ format_telegram_message section item)
  /\ (exists before after,
        format_telegram_message section item =
          before ++ LINK_MARK ++ str " " ++ link item ++ after)
  /\ (exists before after,
        format_whatsapp_message section item =
          before ++ LINK_MARK ++ str " " ++ link item ++ after).
Proof.
  split; [apply telegram_rendering_plain|]. split; [|split].
  - intros Hlink. rewrite telegram_rendering_plain. unfold telegram_rendering.
    destruct (date item), (author item); no_backslash.
  - rewrite telegram_rendering_plain. unfold telegram_rendering.
    exists (MEGAPHONE ++ str " New " ++ clean_text section false ++ str "!"
              ++ [NEWLINE; NEWLINE] ++ clean_text (title item) false ++ [NEWLINE]).
    eexists. rewrite <- !app_assoc. reflexivity.
  - unfold format_whatsapp_message. cbv zeta.
    exists (LOUDSPEAKER ++ str " New " ++ section ++ str " Alert!" ++ [NEWLINE]
              ++ title item ++ [NEWLINE]).
    exists (match date item, author item with
            | Some d, Some a =>
                [NEWLINE] ++ DATE_MARK ++ str " " ++ d
                  ++ [NEWLINE] ++ AUTHOR_MARK ++ str " " ++ a
            | _, _ => []
            end).
    destruct (date item), (author item);
      rewrite <- ?app_assoc, ?app_nil_r; reflexivity.
Qed.

(** ** Cycles and the loop *)

Local Abbreviation page_url bot := (CLONED_PAGE_URL (config bot)).
Local Abbreviation fetch bot := (Call (session_get (page_url bot))).
Local Abbreviation load_state := (Call storage_load_state).
Local Abbreviation tick_of bot := (Call (asyncio_sleep (CHECK_INTERVAL (config bot)))).
Local Abbreviation attempting_whatsapp :=
  (Log INFO (str "Attempting to send WhatsApp messages...")).



(** C5. The parser returns a mapping whose keys are the eight
    categories, so that is the key set of the snapshot of a cycle whose
    fetch answered 200 with a readable body that the HTML parser accepts.
    After a failed fetch the snapshot is the empty mapping, and a body
    that the parser rejects is a failed fetch: the exception is raised
    inside the [try] of [get_latest_notifications]. The delta has the keys
    of the current snapshot it is computed from. *)
Theorem snapshot_and_delta_keys (BeautifulSoup : pystr -> pystr + Soup.node)
    (self : NotificationBot) (w : world) (h : list event) :
  (forall soup, Dict.keys (fst (parse_soup soup)) = categories)
  /\ length categories = 8%nat
  /\ (forall current previous,
        NoDup (Dict.keys current) ->
        Dict.keys (find_new_notifications current previous) = Dict.keys current)
  /\ (forall t current,
        get_latest_notifications BeautifulSoup self w h = (t, inr current) ->
        (Dict.keys current = categories \/ current = Dict.empty)
        /\ forall previous,
             Dict.keys (find_new_notifications current previous) = Dict.keys current)
  /\ (forall content soup,
        w h (session_get (page_url self)) = inr (mkResponse 200 (inr content)) ->
        BeautifulSoup content = inr soup ->
        exists t,
          get_latest_notifications BeautifulSoup self w h
          = (t, inr (fst (parse_soup soup)))
          /\ Dict.keys (fst (parse_soup soup)) = categories)
  /\ (forall content what,
        w h (session_get (page_url self)) = inr (mkResponse 200 (inr content)) ->
        BeautifulSoup content = inl what ->
        get_latest_notifications BeautifulSoup self w h
        = ([fetch self; Log ERROR (str "Fetch error: " ++ what)], inr Dict.empty))
  /\ (forall response,
        w h (session_get (page_url self)) = inr response ->
        status response <> 200%Z ->
        exists t,
          get_latest_notifications BeautifulSoup self w h = (t, inr Dict.empty))
  /\ (forall what,
        w h (session_get (page_url self)) = inl (Exception what)
        \/ w h (session_get (page_url self))
           = inr (mkResponse 200 (inl (Exception what))) ->
        get_latest_notifications BeautifulSoup self w h
        = ([fetch self; Log ERROR (str "Fetch error: " ++ what)], inr Dict.empty)).
Proof.
  split; [apply parse_soup_keys|]. split; [reflexivity|].
  split; [apply find_new_notifications_keys|].
  split; [|split; [|split; [|split]]].
  - intros t current. rewrite get_latest_notifications_run.
    assert (current = Dict.empty ->
            (Dict.keys current = categories \/ current = Dict.empty)
            /\ forall previous,
                 Dict.keys (find_new_notifications current previous)
                 = Dict.keys current) as Hempty.
    { intros ->. split; [by right|done]. }
    destruct (w h _) as [[]|response]; [done|by intros [= _ <-]; apply Hempty|done|].
    destruct (decide _); [|by intros [= _ <-]; apply Hempty].
    destruct (text response) as [[]|content];
      [done|by intros [= _ <-]; apply Hempty|done|].
    destruct (BeautifulSoup content) as [what|soup];
      [by intros [= _ <-]; apply Hempty|].
    intros [= _ <-]. split; [left; apply parse_soup_keys|].
    intros previous. apply find_new_notifications_keys.
    rewrite parse_soup_keys. apply categories_NoDup.
  - intros content soup Hget Hsoup.
    rewrite get_latest_notifications_run, Hget. simpl. rewrite Hsoup.
    eexists. split; [done|]. apply parse_soup_keys.
  - intros content what Hget Hsoup.
    rewrite get_latest_notifications_run, Hget. simpl. by rewrite Hsoup.
  - intros response Hget Hst. rewrite get_latest_notifications_run, Hget.
    rewrite decide_False by done. eauto.
  - intros what [Hget|Hget];
      by rewrite get_latest_notifications_run, Hget.
Qed.

(** C2. With both senders registered and a delta that holds an item, an
    exception raised by the Telegram sender leaves [send_notifications]
    before the WhatsApp sender is called; an exception raised by the
    WhatsApp sender, which is called after the Telegram sender has
    returned, leaves [send_notifications] as well. In either case the
    exception leaves the cycle and the state is not written. *)
Theorem dispatch_failure_propagates (BeautifulSoup : pystr -> pystr + Soup.node)
    (self : NotificationBot) (w : world) (h : list event) (delta : Delta)
    (telegram : TelegramSender.t) (whatsapp : WhatsAppSender.t) :
  telegram_sender self = Some telegram ->
  whatsapp_sender self = Some whatsapp ->
  any_new delta = true ->
  let telegram_messages := rendered format_telegram_message delta in
  let whatsapp_messages := rendered format_whatsapp_message delta in
  (forall e,
     w h (telegram_send_items telegram_messages) = inl e ->
     send_notifications self delta w h =
       ([Call (telegram_send_items telegram_messages)], inl e))
  /\ (forall t e,
        w h (telegram_send_items telegram_messages) = inr tt ->
        WhatsAppSender.send_items whatsapp whatsapp_messages
          WhatsAppSender.default_spacing_seconds w
          ((h ++ [Call (telegram_send_items telegram_messages)])
             ++ [attempting_whatsapp]) = (t, inl e) ->
        send_notifications self delta w h =
          (Call (telegram_send_items telegram_messages)
             :: attempting_whatsapp :: t, inl e))
  /\ (forall t1 current previous t2 e,
        get_latest_notifications BeautifulSoup self w h = (t1, inr current) ->
        w (h ++ t1) storage_load_state = inr previous ->
        find_new_notifications current previous = delta ->
        send_notifications self delta w ((h ++ t1) ++ [load_state]) = (t2, inl e) ->
        check_for_updates BeautifulSoup self w h = (t1 ++ load_state :: t2, inl e)
        /\ Forall (fun c => is_save c = false) (calls (t1 ++ load_state :: t2))).
Proof.
  intros Htg Hwa Hany telegram_messages whatsapp_messages.
  destruct (rendered_nonempty format_telegram_message delta Hany)
    as (m & ms & Hm).
  destruct (rendered_nonempty format_whatsapp_message delta Hany)
    as (m' & ms' & Hm').
  split; [|split].
  - intros e. rewrite send_notifications_run. cbv zeta.
    subst telegram_messages. rewrite Htg, Hm. by intros ->.
  - intros t e. rewrite send_notifications_run. cbv zeta.
    subst telegram_messages whatsapp_messages. rewrite Htg, Hwa, Hm, Hm'.
    by intros -> ->.
  - intros t1 current previous t2 e Hget Hload <- Hsend.
    exact (check_for_updates_dispatch_raises BeautifulSoup self w h t1 current
             previous t2 e Hget Hload Hany Hsend).
Qed.


(** * The properties on the samples *)

Lemma find_new_notifications_delta_witness :
  Dict.get (str "Exam Notifications")
           (find_new_notifications sample_snapshot Dict.empty)
  = Dict.get (str "Exam Notifications") sample_snapshot.
Proof.
  apply (find_new_notifications_delta sample_snapshot Dict.empty
           (str "Exam Notifications")).
  reflexivity.
Defined.

Lemma find_new_notifications_self_witness :
  Dict.get (str "Latest Announcements")
           (find_new_notifications sample_snapshot sample_snapshot)
  = Some [].
Proof.
  apply (find_new_notifications_self sample_snapshot).
  apply (bool_decide_unpack _). vm_compute. exact I.
Defined.

Lemma telegram_message_plain_witness :
  BACKSLASH ∉ format_telegram_message (str "Exam Notifications") exam_item.
Proof.
  apply (telegram_message_plain (str "Exam Notifications") exam_item).
  apply (bool_decide_unpack _). vm_compute. exact I.
Defined.

(** Three messages, the second answered with status 500: three posts. *)
Lemma send_items_attempts_witness :
  outcome (WhatsAppSender.send_items sample_sender three_messages 0.7)
          (second_post_world busy) = inr tt
  /\ posted_bodies
       (trace (WhatsAppSender.send_items sample_sender three_messages 0.7)
              (second_post_world busy)) = three_messages.
Proof.
  assert (forall h url json hdrs,
            exists resp,
              second_post_world busy h (session_post url json hdrs) = inr resp
              /\ (status resp <> 200%Z -> exists txt, text resp = inr txt))
    as Hpost.
  { intros h url json hdrs. unfold second_post_world.
    destruct (decide _); eexists; (split; [reflexivity|]); intros _; by eexists. }
  assert (forall h, second_post_world busy h (asyncio_sleep 0.7) = inr tt)
    as Hsleep by reflexivity.
  pose proof (send_items_attempts sample_sender three_messages 0.7
                (second_post_world busy)) as Hattempts.
  cbv zeta in Hattempts. destruct Hattempts as (Hall & _).
  destruct (Hall Hpost Hsleep) as (Hout & _ & Hbodies).
  split; [exact Hout|exact Hbodies].
Defined.

(** Three messages, the second post raising: two posts, then the exception. *)
Lemma send_items_post_raises_witness :
  outcome (WhatsAppSender.send_items sample_sender three_messages 0.7)
          (second_post_world (inl reset)) = inl reset
  /\ posted_bodies
       (trace (WhatsAppSender.send_items sample_sender three_messages 0.7)
              (second_post_world (inl reset))) = [str "one"; str "two"].
Proof.
  pose proof (send_items_post_raises sample_sender three_messages 0.7
                (second_post_world (inl reset))
                (removelast
                   (trace (WhatsAppSender.send_items sample_sender
                             three_messages 0.7)
                          (second_post_world (inl reset))))
                (WhatsAppSender._api_url sample_sender)
                (WhatsAppSender.payload sample_sender (str "two"))
                (WhatsAppSender.headers sample_sender)
                [] reset) as Hraises.
  destruct Hraises as (_ & Hout & _); [by vm_compute..|].
  split; [exact Hout|by vm_compute].
Defined.


Lemma snapshot_and_delta_keys_witness :
  (exists t,
     get_latest_notifications sample_soup sample_bot calm_world []
     = (t, inr sample_snapshot)
     /\ Dict.keys sample_snapshot = categories)
  /\ snd (get_latest_notifications sample_soup sample_bot rejected_body_world [])
     = inr Dict.empty.
Proof.
  split.
  - destruct (snapshot_and_delta_keys sample_soup sample_bot calm_world [])
      as (_ & _ & _ & _ & Hfetched & _).
    apply (Hfetched (str "<html>") sample_page); reflexivity.
  - destruct (snapshot_and_delta_keys sample_soup sample_bot
                rejected_body_world [])
      as (_ & _ & _ & _ & _ & Hrejected & _).
    rewrite (Hrejected rejected_body
               (str "The markup you provided was rejected by the parser."));
      reflexivity.
Defined.

Lemma dispatch_failure_propagates_witness :
  send_notifications sample_bot sample_delta telegram_down_world [] =
    ([Call (telegram_send_items (rendered format_telegram_message sample_delta))],
     inl (Exception (str "Timed out"))).
Proof.
  apply (dispatch_failure_propagates sample_soup sample_bot telegram_down_world
           [] sample_delta (TelegramSender.mk (str "@notices")) sample_sender);
    reflexivity.
Defined.


(** * Where the code departs from the specification *)

(** Against C2: with the Telegram sender raising, the exception leaves
    the cycle, the WhatsApp sender is not called and the state is not
    written; with a WhatsApp post raising, the exception leaves the cycle
    and the state is not written either. *)
Lemma channel_failure_not_isolated :
  any_new sample_delta = true
  /\ outcome (check_for_updates sample_soup sample_bot) telegram_down_world
     = inl (Exception (str "Timed out"))
  /\ List.filter is_post
       (calls (trace (check_for_updates sample_soup sample_bot)
                     telegram_down_world)) = []
  /\ List.filter is_save
       (calls (trace (check_for_updates sample_soup sample_bot)
                     telegram_down_world)) = []
  /\ outcome (check_for_updates sample_soup sample_bot)
             (second_post_world (inl reset)) = inl reset
  /\ List.filter is_save
       (calls (trace (check_for_updates sample_soup sample_bot)
                     (second_post_world (inl reset)))) = [].
Proof. repeat split; by vm_compute. Qed.


(** Against C4: a title with a dot is rendered as it is, not escaped. *)
Lemma telegram_message_not_escaped :
  format_telegram_message (str "Exam Notifications") exam_item
  <> telegram_rendering (fun t => clean_text t true)
       (str "Exam Notifications") exam_item.
Proof. by vm_compute. Qed.

(** Against C5: after a fetch answered with status 500 the snapshot and
    the delta are empty mappings, without any category. *)
Lemma fetch_failure_snapshot_empty :
  outcome (get_latest_notifications sample_soup sample_bot) http_500_world
  = inr Dict.empty
  /\ Dict.keys (Dict.empty : Snapshot) <> categories
  /\ Dict.keys (find_new_notifications Dict.empty sample_snapshot) <> categories.
Proof. repeat split; by vm_compute. Qed.

(** Against C7: the second of three posts is answered with status 500
    and the body of that answer cannot be read. The exception of the read
    leaves [send_items] right after that post: no error line is logged
    and the third message is never posted, two attempts instead of
    three. *)
Lemma unreadable_answer_ends_send_items :
  second_post_world unreadable
    [Log INFO (str "WhatsAppSender received 3 messages to send.");
     Call (session_post (WhatsAppSender._api_url sample_sender)
             (WhatsAppSender.payload sample_sender (str "one"))
             (WhatsAppSender.headers sample_sender));
     Log INFO (str "WhatsApp message sent successfully");
     Call (asyncio_sleep 0.7)]
    (session_post (WhatsAppSender._api_url sample_sender)
       (WhatsAppSender.payload sample_sender (str "two"))
       (WhatsAppSender.headers sample_sender))
  = unreadable
  /\ outcome (WhatsAppSender.send_items sample_sender three_messages 0.7)
             (second_post_world unreadable)
     = inl (Exception (str "Response payload is not completed"))
  /\ posted_bodies
       (trace (WhatsAppSender.send_items sample_sender three_messages 0.7)
              (second_post_world unreadable))
     = [str "one"; str "two"]
  /\ List.filter is_error_line
       (trace (WhatsAppSender.send_items sample_sender three_messages 0.7)
              (second_post_world unreadable))
     = []
  /\ last (trace (WhatsAppSender.send_items sample_sender three_messages 0.7)
                 (second_post_world unreadable))
     = Some (Call (session_post (WhatsAppSender._api_url sample_sender)
                     (WhatsAppSender.payload sample_sender (str "two"))
                     (WhatsAppSender.headers sample_sender))).
Proof. repeat split; by vm_compute. Qed.

(** * Further properties of the code *)

(** ** The shape of a normalized text *)

Lemma split_words_like s : Forall word_like (split s).
Proof.
  induction s as [|c rest IH]; simpl; [constructor|].
  destruct (isspace c) eqn:Hc; [done|].
  destruct rest as [|d rest'].
  { repeat constructor; [done|by rewrite Hc]. }
  destruct (isspace d) eqn:Hd.
  - constructor; [|done]. split; [done|]. by repeat constructor.
  - destruct (split (d :: rest')) as [|w ws].
    + repeat constructor; [done|by rewrite Hc].
    + apply Forall_cons in IH as [[_ Hw] Hws].
      constructor; [|done]. split; [done|]. by constructor.
Qed.

Lemma split_word_like word : word_like word -> split word = [word].
Proof.
  intros [Hne Hword]. induction word as [|c rest IH]; [done|].
  apply Forall_cons in Hword as [Hc Hrest].
  simpl. rewrite Hc. destruct rest as [|d rest']; [done|].
  pose proof Hrest as [Hd _]%Forall_cons. rewrite Hd.
  by rewrite IH.
Qed.

Lemma split_word_space word rest :
  word_like word -> split (word ++ SPACE :: rest) = word :: split rest.
Proof.
  intros [Hne Hword]. induction word as [|c word IH]; [done|].
  apply Forall_cons in Hword as [Hc Hword].
  cbn [app split]. rewrite Hc. destruct word as [|d word'].
  - reflexivity.
  - pose proof Hword as [Hd _]%Forall_cons.
    cbn [app]. rewrite Hd. cbn [app] in IH. by rewrite IH.
Qed.

(** Joining words with single spaces and splitting again gives the words
    back. *)
Lemma split_join_words words :
  Forall word_like words -> split (join [SPACE] words) = words.
Proof.
  induction words as [|w ws IH]; [done|]. intros [Hw Hws]%Forall_cons.
  destruct ws as [|w' ws'].
  - by apply split_word_like.
  - rewrite join_cons_cons. cbn [app].
    rewrite split_word_space by done. by rewrite IH.
Qed.

Lemma join_split_fixed s :
  join [SPACE] (split (join [SPACE] (split s))) = join [SPACE] (split s).
Proof. rewrite split_join_words; [done|apply split_words_like]. Qed.

Lemma join_split_whitespace s c :
  c ∈ join [SPACE] (split s) -> isspace c = true -> c = SPACE.
Proof.
  intros [Hsp|(word & Hw & Hc)]%elem_of_join Hspace.
  - by apply list_elem_of_singleton in Hsp.
  - pose proof (split_words_like s) as Hall.
    rewrite Forall_forall in Hall. destruct (Hall word Hw) as [_ Hword].
    rewrite Forall_forall in Hword. rewrite (Hword c Hc) in Hspace. done.
Qed.

Lemma split_nil_iff s : split s = [] <-> Forall (fun c => isspace c = true) s.
Proof.
  induction s as [|c rest IH]; [by split; [constructor|]|].
  split.
  - intros Hs. destruct (isspace c) eqn:Hc.
    + constructor; [done|]. apply IH. simpl in Hs. by rewrite Hc in Hs.
    + by apply split_not_space_cons in Hs.
  - intros [Hc Hrest]%Forall_cons. simpl. rewrite Hc. by apply IH.
Qed.

Lemma count_char_app c s1 s2 :
  count_char c (s1 ++ s2) = (count_char c s1 + count_char c s2)%nat.
Proof. unfold count_char. by rewrite List.filter_app, length_app. Qed.

Lemma count_char_absent c s : c ∉ s -> count_char c s = 0%nat.
Proof.
  unfold count_char. induction s as [|x s IH]; [done|].
  intros [Hne Hnot]%not_elem_of_cons. cbn [List.filter].
  rewrite bool_decide_eq_false_2 by done. by apply IH.
Qed.

Lemma clean_text_no_newline text for_markdown :
  NEWLINE ∉ clean_text text for_markdown.
Proof.
  unfold clean_text. intros Hin.
  by apply join_split_whitespace in Hin.
Qed.

(** X1. The result of [clean_text], in either variant, is already
    normalized: collapsing and trimming it again changes nothing, and its
    only whitespace characters are single spaces, so it holds no newline. *)
Theorem clean_text_shape (text : pystr) (for_markdown : bool) :
  normalize_whitespace (clean_text text for_markdown)
    = clean_text text for_markdown
  /\ (forall c,
        c ∈ clean_text text for_markdown -> isspace c = true -> c = SPACE)
  /\ NEWLINE ∉ clean_text text for_markdown.
Proof.
  split; [|split].
  - rewrite <- join_split_normalize. unfold clean_text. apply join_split_fixed.
  - intros c. unfold clean_text. apply join_split_whitespace.
  - apply clean_text_no_newline.
Qed.

(** X2. The plain variant of [clean_text] is idempotent. *)
Theorem clean_text_plain_idempotent (text : pystr) :
  clean_text (clean_text text false) false = clean_text text false.
Proof.
  unfold clean_text at 1. rewrite replace_backslash_strip.
  assert (strip_backslashes (clean_text text false) = clean_text text false)
    as ->.
  { pose proof (clean_text_plain_no_backslash text) as Hnot.
    unfold strip_backslashes.
    induction (clean_text text false) as [|c s IH]; [done|].
    apply not_elem_of_cons in Hnot as [Hne Hnot]. cbn [List.filter].
    rewrite bool_decide_eq_false_2 by done. simpl. by rewrite IH. }
  unfold clean_text. apply join_split_fixed.
Qed.

Lemma escape_markdown_whitespace text :
  Forall (fun c => isspace c = true) (escape_markdown text)
  <-> Forall (fun c => isspace c = true) text.
Proof.
  unfold escape_markdown. induction text as [|c text IH]; [done|].
  cbn [flat_map]. rewrite Forall_app, Forall_cons, IH.
  destruct (bool_decide (c ∈ markdown_metacharacters)) eqn:Hc.
  - apply bool_decide_eq_true in Hc.
    assert (isspace c = false) as Hns.
    { apply list_elem_of_In in Hc. vm_compute in Hc.
      repeat (destruct Hc as [<-|Hc]; [reflexivity|]). done. }
    rewrite Hns. split; [|by intros [? _]].
    intros [[Hbs _]%Forall_cons _]. done.
  - rewrite Forall_cons, Forall_nil. tauto.
Qed.

Lemma strip_backslashes_whitespace text :
  Forall (fun c => isspace c = true) (strip_backslashes text)
  <-> Forall (fun c => isspace c = true \/ c = BACKSLASH) text.
Proof.
  unfold strip_backslashes. induction text as [|c text IH]; [done|].
  cbn [List.filter]. rewrite (Forall_cons _ c text).
  destruct (decide (c = BACKSLASH)) as [->|Hne].
  - rewrite bool_decide_eq_true_2 by done. simpl. rewrite IH. tauto.
  - rewrite bool_decide_eq_false_2 by done. simpl. rewrite Forall_cons, IH.
    tauto.
Qed.

Lemma join_split_nil_iff s :
  join [SPACE] (split s) = [] <-> Forall (fun c => isspace c = true) s.
Proof.
  rewrite <- split_nil_iff. split; [apply join_split_nil|by intros ->].
Qed.

(** X3. [clean_text] returns the empty string exactly for a text that has
    nothing but whitespace and, in the plain variant, backslashes. *)
Theorem clean_text_empty (text : pystr) :
  (clean_text text true = []
   <-> Forall (fun c => isspace c = true) text)
  /\ (clean_text text false = []
      <-> Forall (fun c => isspace c = true \/ c = BACKSLASH) text).
Proof.
  split.
  - unfold clean_text. rewrite escape_passes_escape_markdown.
    by rewrite join_split_nil_iff, escape_markdown_whitespace.
  - unfold clean_text. rewrite replace_backslash_strip.
    by rewrite join_split_nil_iff, strip_backslashes_whitespace.
Qed.

(** ** The layout of a message *)

Ltac count_newlines Hlink :=
  rewrite ?count_char_app;
  rewrite ?(count_char_absent _ _ (clean_text_no_newline _ _));
  rewrite ?(count_char_absent _ _ Hlink);
  reflexivity.

(** X4. A Telegram message has a fixed number of lines whatever the
    texts: when the link holds no newline there are three newlines in the
    message, or five when the item has both a date and an author. An item
    with only one of the two is rendered, by both formatters, like an item
    with neither. *)
Theorem message_layout (section : pystr) (item : Item) :
  (NEWLINE ∉ link item ->
   count_char NEWLINE (format_telegram_message section item) =
     match date item, author item with
     | Some _, Some _ => 5%nat
     | _, _ => 3%nat
     end)
  /\ (date item = None \/ author item = None ->
      format_telegram_message section item =
        format_telegram_message section (without_date_author item)
      /\ format_whatsapp_message section item =
           format_whatsapp_message section (without_date_author item)).
Proof.
  split.
  - intros Hlink. rewrite telegram_rendering_plain. unfold telegram_rendering.
    destruct (date item), (author item); count_newlines Hlink.
  - unfold format_telegram_message, format_whatsapp_message,
      without_date_author. simpl.
    intros [->| ->]; [done|]. by destruct (date item).
Qed.

Lemma message_layout_witness :
  count_char NEWLINE (format_telegram_message (str "Exam Notifications") exam_item)
  = 3%nat.
Proof.
  apply (message_layout (str "Exam Notifications") exam_item).
  apply (bool_decide_unpack _). vm_compute. exact I.
Defined.

(** ** What the change detector finds *)

Lemma filter_not_in_nil_iff (l prev : list Item) :
  List.filter (fun item => bool_decide (item ∉ prev)) l = []
  <-> forall item, item ∈ l -> item ∈ prev.
Proof.
  split; [|apply filter_not_in_all].
  induction l as [|x l IH]; [by intros _ item ?%elem_of_nil|].
  cbn [List.filter]. destruct (decide (x ∈ prev)) as [Hin|Hnot].
  - rewrite bool_decide_eq_false_2 by (by intros ?).
    intros Hnil item [->|Hitem]%elem_of_cons; [done|by apply IH].
  - by rewrite bool_decide_eq_true_2.
Qed.

Lemma get_Some_values {K V} `{EqDecision K} (k : K) (v : V) d :
  Dict.get k d = Some v -> v ∈ Dict.values d.
Proof.
  induction d as [|[k' v'] d IH]; [done|]. simpl.
  destruct (decide (k = k')).
  - intros [= ->]. left.
  - intros Hget. right. by apply IH.
Qed.

Lemma any_new_false (delta : Delta) :
  any_new delta = false <-> forall items, items ∈ Dict.values delta -> items = [].
Proof.
  unfold any_new. induction (Dict.values delta) as [|v vs IH].
  - split; [by intros _ items ?%elem_of_nil|done].
  - cbn [existsb]. rewrite orb_false_iff, IH, negb_false_iff, bool_decide_eq_true.
    split.
    + intros [-> Hvs] items [->|Hin]%elem_of_cons; [done|by apply Hvs].
    + intros Hall. split; [apply Hall; left|].
      intros items Hin. apply Hall. by right.
Qed.

(** Nothing is new exactly when every current item is among the previous
    items of its category. *)
Lemma nothing_new_iff (current previous : Snapshot) :
  any_new (find_new_notifications current previous) = false
  <-> forall section items item,
        Dict.get section current = Some items ->
        item ∈ items ->
        item ∈ Dict.get_or section [] previous.
Proof.
  rewrite any_new_false. split.
  - intros Hall section items item Hget.
    assert (List.filter
              (fun item => bool_decide (item ∉ Dict.get_or section [] previous))
              items = []) as Hnil.
    { apply Hall. apply (get_Some_values section).
      by rewrite get_find_new_notifications, Hget. }
    by apply filter_not_in_nil_iff.
  - intros Hsub items (section & Hin & ->)%values_comprehension.
    apply elem_of_keys in Hin as [current_items Hget].
    apply filter_not_in_nil_iff. unfold Dict.get_or at 1. rewrite Hget.
    intros item Hitem. by apply (Hsub section current_items).
Qed.

Lemma get_latest_notifications_calls_exact BeautifulSoup self w h :
  calls (fst (get_latest_notifications BeautifulSoup self w h))
  = [session_get (page_url self)].
Proof.
  assert (forall msgs, calls (List.map (Log WARNING) msgs) = []) as Hwarn.
  { induction msgs as [|msg msgs IH]; [done|exact IH]. }
  rewrite get_latest_notifications_run.
  destruct (w h _) as [[]|response]; [done..|].
  destruct (decide _); [|done].
  destruct (text response) as [[]|content]; [done..|].
  destruct (BeautifulSoup content) as [what|soup]; [done|].
  simpl fst.
  change (calls (fetch self :: ?t)) with (session_get (page_url self) :: calls t).
  by rewrite Hwarn.
Qed.

(** X5. A cycle sends and saves nothing exactly when nothing is new, that
    is when every item on the page is already in the stored state under
    its category, also when the page has lost items that the stored state
    still holds: the cycle then only fetches the page and reads the state. *)
Theorem cycle_without_news (BeautifulSoup : pystr -> pystr + Soup.node)
    (self : NotificationBot) (w : world) :
  (forall current previous,
     any_new (find_new_notifications current previous) = false
     <-> forall section items item,
           Dict.get section current = Some items ->
           item ∈ items ->
           item ∈ Dict.get_or section [] previous)
  /\ (forall t1 current previous,
        get_latest_notifications BeautifulSoup self w [] = (t1, inr current) ->
        w t1 storage_load_state = inr previous ->
        (forall section items item,
           Dict.get section current = Some items ->
           item ∈ items ->
           item ∈ Dict.get_or section [] previous) ->
        run (check_for_updates BeautifulSoup self) w = (t1 ++ [load_state], inr tt)
        /\ calls (t1 ++ [load_state])
           = [session_get (page_url self); storage_load_state]).
Proof.
  split; [apply nothing_new_iff|].
  intros t1 current previous Hget Hload Hsub. split.
  - unfold run. rewrite check_for_updates_run, Hget. cbn [app].
    rewrite Hload. cbv zeta.
    by rewrite (proj2 (nothing_new_iff current previous) Hsub).
  - pose proof (get_latest_notifications_calls_exact BeautifulSoup self w [])
      as Hcalls.
    rewrite Hget in Hcalls. rewrite calls_app. simpl in Hcalls.
    by rewrite Hcalls.
Qed.

Lemma cycle_without_news_witness :
  run (check_for_updates sample_soup sample_bot) seen_world
  = ([fetch sample_bot; load_state], inr tt).
Proof.
  destruct (cycle_without_news sample_soup sample_bot seen_world)
    as [_ Hquiet].
  apply (Hquiet [fetch sample_bot] sample_snapshot sample_snapshot).
  - reflexivity.
  - reflexivity.
  - intros section items item Hget Hitem. unfold Dict.get_or.
    by rewrite Hget.
Defined.

(** X6. When the current snapshot is the previous one with one item, not
    yet there, appended to one category, the delta holds that item alone
    under that category and is empty under every other. *)
Theorem find_new_notifications_appended (A : Snapshot) (section : pystr)
    (items : list Item) (item : Item) :
  Dict.get section A = Some items ->
  item ∉ items ->
  forall key,
    Dict.get key
      (find_new_notifications (Dict.set section (items ++ [item]) A) A)
    = if decide (key = section) then Some [item]
      else (fun _ => []) <$> Dict.get key A.
Proof.
  intros Hget Hnew key. rewrite get_find_new_notifications.
  destruct (decide (key = section)) as [->|Hne].
  - rewrite get_set_eq. unfold Dict.get_or. rewrite Hget. simpl. f_equal.
    rewrite List.filter_app. rewrite filter_not_in_all by done.
    cbn [List.filter]. by rewrite bool_decide_eq_true_2.
  - rewrite get_set_ne by done.
    destruct (Dict.get key A) as [l|] eqn:Hkey; [|done].
    simpl. f_equal. apply filter_not_in_all.
    unfold Dict.get_or. by rewrite Hkey.
Qed.

Lemma find_new_notifications_appended_witness :
  Dict.get (str "Exam Notifications")
    (find_new_notifications
       (Dict.set (str "Exam Notifications") ([] ++ [exam_item])
                 empty_notifications)
       empty_notifications)
  = Some [exam_item].
Proof.
  apply (find_new_notifications_appended empty_notifications
           (str "Exam Notifications") [] exam_item).
  - reflexivity.
  - apply not_elem_of_nil.
Defined.

(** ** What a dispatch and a cycle do when the senders answer *)

Lemma send_items_calls_exact (sender : WhatsAppSender.t)
    (messages : list pystr) (spacing : Q) (w : world) (h : list event) :
  (forall h url json hdrs,
     exists st txt,
       w h (session_post url json hdrs) = inr (mkResponse st (inr txt))) ->
  (forall h, w h (asyncio_sleep spacing) = inr tt) ->
  exists t,
    WhatsAppSender.send_items sender messages spacing w h = (t, inr tt)
    /\ calls t =
         flat_map (fun body =>
                     [session_post (WhatsAppSender._api_url sender)
                        (WhatsAppSender.payload sender body)
                        (WhatsAppSender.headers sender);
                      asyncio_sleep spacing]) messages
    /\ posted_bodies t = messages.
Proof.
  intros Hpost Hsleep. rewrite send_items_run. cbv zeta.
  destruct (loop_completes sender spacing w messages
              (h ++ [Log INFO (str "WhatsAppSender received "
                                 ++ str_of_int (Z.of_nat (length messages))
                                 ++ str " messages to send.")])
              Hpost Hsleep) as (t & -> & Hcalls & Hbodies).
  eexists. split; [done|]. split; [exact Hcalls|exact Hbodies].
Qed.

Lemma rendered_length render (delta : Delta) :
  length (rendered render delta) = length (List.concat (Dict.values delta)).
Proof.
  unfold rendered, Dict.values, Dict.items.
  induction delta as [|[section items] delta IH]; [done|].
  cbn [flat_map List.map List.concat]. rewrite !length_app, IH.
  by rewrite length_map.
Qed.

(** X7. When the senders answer, a dispatch makes one call of the
    Telegram sender with all its messages (none when no item is new or
    the sender is not registered), then one post and one pause of 0.7 s
    for each WhatsApp message, and returns; each sender gets one message
    for each item of the delta. *)
Theorem dispatch_calls (self : NotificationBot) (w : world) (h : list event)
    (delta : Delta) :
  (forall h messages, w h (telegram_send_items messages) = inr tt) ->
  (forall h url json hdrs,
     exists st txt,
       w h (session_post url json hdrs) = inr (mkResponse st (inr txt))) ->
  (forall h, w h (asyncio_sleep WhatsAppSender.default_spacing_seconds) = inr tt) ->
  exists t,
    send_notifications self delta w h = (t, inr tt)
    /\ calls t =
         match telegram_sender self, rendered format_telegram_message delta with
         | Some _, _ :: _ =>
             [telegram_send_items (rendered format_telegram_message delta)]
         | _, _ => []
         end
         ++ match whatsapp_sender self with
            | Some sender =>
                flat_map (fun body =>
                            [session_post (WhatsAppSender._api_url sender)
                               (WhatsAppSender.payload sender body)
                               (WhatsAppSender.headers sender);
                             asyncio_sleep WhatsAppSender.default_spacing_seconds])
                         (rendered format_whatsapp_message delta)
            | None => []
            end
    /\ length (rendered format_telegram_message delta)
       = length (List.concat (Dict.values delta))
    /\ length (rendered format_whatsapp_message delta)
       = length (List.concat (Dict.values delta)).
Proof.
  intros Htg Hpost Hsleep.
  assert (forall t1,
            exists t,
              match whatsapp_sender self, rendered format_whatsapp_message delta with
              | Some sender, _ :: _ =>
                  match WhatsAppSender.send_items sender
                          (rendered format_whatsapp_message delta)
                          WhatsAppSender.default_spacing_seconds w
                          ((h ++ t1) ++ [attempting_whatsapp]) with
                  | (t2, r) => (t1 ++ attempting_whatsapp :: t2, r)
                  end
              | _, _ => (t1 ++ [], inr tt)
              end = (t, inr tt)
              /\ calls t =
                   calls t1 ++
                   match whatsapp_sender self with
                   | Some sender =>
                       flat_map
                         (fun body =>
                            [session_post (WhatsAppSender._api_url sender)
                               (WhatsAppSender.payload sender body)
                               (WhatsAppSender.headers sender);
                             asyncio_sleep WhatsAppSender.default_spacing_seconds])
                         (rendered format_whatsapp_message delta)
                   | None => []
                   end) as Hwa.
  { intros t1. destruct (whatsapp_sender self) as [wa|];
      [|eexists; split; [done|by rewrite !app_nil_r]].
    destruct (rendered format_whatsapp_message delta) as [|m ms] eqn:Hm;
      [eexists; split; [done|by rewrite !app_nil_r]|].
    destruct (send_items_calls_exact wa (m :: ms)
                WhatsAppSender.default_spacing_seconds w
                ((h ++ t1) ++ [attempting_whatsapp]) Hpost Hsleep)
      as (t2 & -> & Hcalls & _).
    eexists. split; [done|]. rewrite calls_app.
    change (calls (attempting_whatsapp :: t2)) with (calls t2).
    by rewrite Hcalls. }
  rewrite send_notifications_run. cbv zeta.
  destruct (telegram_sender self) as [tg|].
  - destruct (rendered format_telegram_message delta) as [|m ms] eqn:Hm.
    + destruct (Hwa []) as (t & Ht & Hcalls). exists t.
      split; [exact Ht|]. split; [exact Hcalls|].
      by rewrite <- Hm, !rendered_length.
    + rewrite Htg.
      destruct (Hwa [Call (telegram_send_items (m :: ms))]) as (t & Ht & Hcalls).
      exists t. split; [exact Ht|]. split; [exact Hcalls|].
      by rewrite <- Hm, !rendered_length.
  - destruct (Hwa []) as (t & Ht & Hcalls). exists t.
    split; [exact Ht|]. split; [exact Hcalls|].
    by rewrite !rendered_length.
Qed.

Lemma dispatch_calls_witness :
  exists t,
    send_notifications sample_bot sample_delta calm_world [] = (t, inr tt)
    /\ List.filter is_telegram (calls t)
       = [telegram_send_items (rendered format_telegram_message sample_delta)]
    /\ posted_bodies t = rendered format_whatsapp_message sample_delta.
Proof.
  destruct (dispatch_calls sample_bot calm_world [] sample_delta)
    as (t & Ht & Hcalls & _).
  - reflexivity.
  - intros. eexists _, _. reflexivity.
  - reflexivity.
  - exists t. split; [exact Ht|]. unfold posted_bodies. rewrite Hcalls.
    split; by vm_compute.
Defined.

Lemma filter_is_save_none (l : list call) :
  Forall (fun c => is_save c = false) l -> List.filter is_save l = [].
Proof.
  induction l as [|c l IH]; [done|]. intros [Hc Hl]%Forall_cons.
  cbn [List.filter]. rewrite Hc. by apply IH.
Qed.

(** X8. When a cycle finds new items and the dispatch returns, the state
    written is the whole current snapshot, written once and after the
    dispatch. With no sender registered the dispatch does nothing, so the
    new items are recorded as seen although no message was sent. *)
Theorem cycle_with_news (BeautifulSoup : pystr -> pystr + Soup.node)
    (self : NotificationBot) (w : world) (t1 t2 : list event)
    (current previous : Snapshot) :
  get_latest_notifications BeautifulSoup self w [] = (t1, inr current) ->
  w t1 storage_load_state = inr previous ->
  any_new (find_new_notifications current previous) = true ->
  send_notifications self (find_new_notifications current previous) w
    (t1 ++ [load_state]) = (t2, inr tt) ->
  w ((t1 ++ [load_state]) ++ t2) (storage_save_state current) = inr tt ->
  run (check_for_updates BeautifulSoup self) w =
    (t1 ++ load_state :: t2
        ++ [Call (storage_save_state current); Log INFO (saved_message current)],
     inr tt)
  /\ List.filter is_save (calls (trace (check_for_updates BeautifulSoup self) w))
     = [storage_save_state current]
  /\ (telegram_sender self = None -> whatsapp_sender self = None -> t2 = []).
Proof.
  intros Hget Hload Hany Hsend Hsave.
  assert (run (check_for_updates BeautifulSoup self) w =
            (t1 ++ load_state :: t2
                ++ [Call (storage_save_state current);
                    Log INFO (saved_message current)], inr tt)) as Hrun.
  { unfold run. rewrite check_for_updates_run, Hget. cbn [app].
    rewrite Hload. cbv zeta. by rewrite Hany, Hsend, Hsave. }
  split; [exact Hrun|]. split.
  - pose proof (get_latest_notifications_calls_exact BeautifulSoup self w [])
      as Hcalls.
    rewrite Hget in Hcalls. simpl in Hcalls.
    pose proof (send_notifications_no_save self w
                  (find_new_notifications current previous)
                  (t1 ++ [load_state])) as Hnone.
    rewrite Hsend in Hnone. apply filter_is_save_none in Hnone.
    simpl in Hnone.
    unfold trace. rewrite Hrun. simpl fst.
    change (load_state :: t2 ++ ?x) with ([load_state] ++ t2 ++ x).
    rewrite !calls_app, !List.filter_app, Hcalls, Hnone. reflexivity.
  - intros Htg Hwa. rewrite send_notifications_run, Htg, Hwa in Hsend.
    by injection Hsend as <-.
Qed.

Lemma cycle_with_news_witness :
  List.filter is_save
    (calls (trace (check_for_updates sample_soup unregistered_bot) calm_world))
  = [storage_save_state sample_snapshot].
Proof.
  apply (cycle_with_news sample_soup unregistered_bot calm_world
           [fetch sample_bot] [] sample_snapshot Dict.empty);
    reflexivity.
Defined.

(** X9. [get_latest_notifications] makes one request for the page and no
    other call, and no [Exception] leaves it. When the response has
    status 200, its body can be read and the parser accepts that body, it
    returns what the parser made of that body; in every other case in
    which it returns, it returns the empty mapping. An exception leaves
    it only if the request or the reading of the body raised it. *)
Theorem get_latest_notifications_contained (BeautifulSoup : pystr -> pystr + Soup.node)
    (self : NotificationBot) (w : world) (h : list event) :
  calls (fst (get_latest_notifications BeautifulSoup self w h))
    = [session_get (page_url self)]
  /\ (forall what,
        snd (get_latest_notifications BeautifulSoup self w h)
        <> inl (Exception what))
  /\ (forall response content soup,
        w h (session_get (page_url self)) = inr response ->
        status response = 200%Z ->
        text response = inr content ->
        BeautifulSoup content = inr soup ->
        snd (get_latest_notifications BeautifulSoup self w h)
        = inr (fst (parse_soup soup)))
  /\ (forall current,
        snd (get_latest_notifications BeautifulSoup self w h) = inr current ->
        current = Dict.empty
        \/ exists response content soup,
             w h (session_get (page_url self)) = inr response
             /\ status response = 200%Z
             /\ text response = inr content
             /\ BeautifulSoup content = inr soup
             /\ current = fst (parse_soup soup))
  /\ (forall e,
        snd (get_latest_notifications BeautifulSoup self w h) = inl e ->
        w h (session_get (page_url self)) = inl e
        \/ exists response,
             w h (session_get (page_url self)) = inr response
             /\ status response = 200%Z
             /\ text response = inl e).
Proof.
  split; [apply get_latest_notifications_calls_exact|].
  rewrite get_latest_notifications_run.
  destruct (w h _) as [err|response] eqn:Hget.
  { destruct err; (split; [done|]); (split; [done|]);
      (split; [by intros current [= <-]; left|]);
      intros e [= <-]; by left. }
  destruct (decide _) as [Hst|Hst].
  2:{ split; [done|]. split; [intros ? ? ? [= <-] Hok; by destruct Hst|].
      split; [by intros current [= <-]; left|done]. }
  destruct (text response) as [err|content] eqn:Htext.
  { destruct err; (split; [done|]);
      (split; [intros ? ? ? [= <-] _ Htext'; by rewrite Htext in Htext'|]);
      (split; [by intros current [= <-]; left|]);
      intros e [= <-]; right; by exists response. }
  destruct (BeautifulSoup content) as [what|soup] eqn:Hsoup.
  - split; [done|]. split.
    + intros ? ? ? [= <-] _ Htext'. rewrite Htext in Htext'.
      injection Htext' as <-. by rewrite Hsoup.
    + split; [by intros current [= <-]; left|done].
  - split; [done|]. split.
    + intros ? ? ? [= <-] _ Htext'. rewrite Htext in Htext'.
      injection Htext' as <-. rewrite Hsoup. by intros [= <-].
    + split; [|done]. intros current [= <-]. right.
      by exists response, content, soup.
Qed.



(** ** What the parser collects *)

Lemma append_entry_get_eq section_key entry (st : parser_state) l :
  Dict.get section_key (fst st) = Some l ->
  Dict.get section_key (fst (append_entry section_key entry st))
  = Some (l ++ [entry]).
Proof.
  intros Hget. unfold append_entry. rewrite Hget. simpl. apply get_set_eq.
Qed.

Lemma append_entry_get_ne section_key entry (st : parser_state) k :
  k <> section_key ->
  Dict.get k (fst (append_entry section_key entry st)) = Dict.get k (fst st).
Proof.
  intros Hne. unfold append_entry.
  destruct (Dict.get section_key (fst st)); [|done].
  simpl. by apply get_set_ne.
Qed.

Lemma parse_entry_get_eq section_key (st : parser_state) item l :
  Dict.get section_key (fst st) = Some l ->
  Dict.get section_key (fst (parse_entry section_key st item))
  = Some (l ++ match entry_of section_key item with
               | Some entry => [entry]
               | None => []
               end).
Proof.
  intros Hget. unfold parse_entry, entry_of.
  destruct (parse_item section_key item); rewrite ?app_nil_r; [|done|done].
  by apply append_entry_get_eq.
Qed.

Lemma parse_entry_get_ne section_key (st : parser_state) item k :
  k <> section_key ->
  Dict.get k (fst (parse_entry section_key st item)) = Dict.get k (fst st).
Proof.
  intros Hne. unfold parse_entry.
  destruct (parse_item section_key item); [|done|done].
  by apply append_entry_get_ne.
Qed.

Lemma fold_parse_entry_get_eq section_key items (st : parser_state) l :
  Dict.get section_key (fst st) = Some l ->
  Dict.get section_key (fst (fold_left (parse_entry section_key) items st))
  = Some (l ++ omap (entry_of section_key) items).
Proof.
  revert st l. induction items as [|item items IH]; intros st l Hget.
  - by rewrite app_nil_r.
  - cbn [fold_left]. rewrite (IH _ _ (parse_entry_get_eq _ _ item _ Hget)).
    rewrite <- app_assoc. f_equal. f_equal. cbn [omap list_omap].
    by destruct (entry_of section_key item).
Qed.

Lemma fold_parse_entry_get_ne section_key items (st : parser_state) k :
  k <> section_key ->
  Dict.get k (fst (fold_left (parse_entry section_key) items st))
  = Dict.get k (fst st).
Proof.
  intros Hne. revert st. induction items as [|item items IH]; intros st; [done|].
  cbn [fold_left]. rewrite IH. by apply parse_entry_get_ne.
Qed.

Lemma parse_section_get (st : parser_state) section k l :
  Dict.get k (fst st) = Some l ->
  Dict.get k (fst (parse_section st section))
  = Some (l ++ entries_for k [section]).
Proof.
  intros Hget. unfold entries_for, section_entries, parse_section, candidates.
  cbn [flat_map]. rewrite app_nil_r.
  destruct (Soup.find _ section) as [header|]; [|by rewrite app_nil_r].
  destruct (Dict.get _ sections_map) as [section_key|];
    [|by rewrite app_nil_r].
  destruct (decide (section_key = [])); [by rewrite app_nil_r|].
  destruct (Soup.find_class _ _ section) as [content_div|];
    [|by rewrite app_nil_r].
  destruct (decide (section_key = k)) as [->|Hne].
  - by apply fold_parse_entry_get_eq.
  - rewrite app_nil_r, fold_parse_entry_get_ne; done.
Qed.

Lemma entries_for_cons k section sections :
  entries_for k (section :: sections)
  = entries_for k [section] ++ entries_for k sections.
Proof. unfold entries_for. cbn [flat_map]. by rewrite app_nil_r. Qed.

Lemma parse_sections_get sections (st : parser_state) k l :
  Dict.get k (fst st) = Some l ->
  Dict.get k (fst (fold_left parse_section sections st))
  = Some (l ++ entries_for k sections).
Proof.
  revert st l. induction sections as [|section sections IH]; intros st l Hget.
  - by rewrite app_nil_r.
  - cbn [fold_left].
    rewrite (IH _ _ (parse_section_get _ section _ _ Hget)).
    f_equal. rewrite (entries_for_cons k section sections).
    symmetry. apply app_assoc.
Qed.

Lemma empty_notifications_get k :
  Dict.get k empty_notifications
  = if decide (k ∈ categories) then Some [] else None.
Proof.
  destruct (decide (k ∈ categories)) as [Hin|Hnot].
  - destruct (proj1 (elem_of_keys k empty_notifications) Hin) as [l Hget].
    rewrite Hget. f_equal.
    apply get_Some_values in Hget. apply list_elem_of_In in Hget.
    vm_compute in Hget. by repeat (destruct Hget as [<-|Hget]; [done|]).
  - destruct (Dict.get k empty_notifications) eqn:Hget; [|done].
    exfalso. apply Hnot. apply (elem_of_keys k empty_notifications). eauto.
Qed.

Lemma parse_soup_get_category soup k :
  k ∈ categories ->
  Dict.get k (fst (parse_soup soup))
  = Some (entries_for k (Soup.select_section_block soup)).
Proof.
  intros Hin. unfold parse_soup.
  rewrite (parse_sections_get _ (empty_notifications, []) k []); [done|].
  simpl fst. rewrite empty_notifications_get. by rewrite decide_True.
Qed.

(** X11. The mapping that the parser builds by appending in place holds,
    for each of the eight categories, the entries of the sections whose
    heading the table maps to that category, in the order of the sections
    on the page and of the candidates in each section; a section without
    heading, with a heading that is not in the table or without content
    block adds nothing. *)
Theorem parse_soup_by_category (soup : Soup.node) (k : pystr) :
  Dict.get k (fst (parse_soup soup))
  = if decide (k ∈ categories)
    then Some (entries_for k (Soup.select_section_block soup))
    else None.
Proof.
  destruct (decide (k ∈ categories)) as [Hin|Hnot].
  - by apply parse_soup_get_category.
  - destruct (Dict.get k (fst (parse_soup soup))) eqn:Hget; [|done].
    exfalso. apply Hnot. rewrite <- (parse_soup_keys soup).
    apply elem_of_keys. eauto.
Qed.

Lemma parse_sections_unknown sections (st : parser_state) :
  (forall section header,
     section ∈ sections ->
     Soup.find (str "h2") section = Some header ->
     Dict.get (Soup.get_text_strip header) sections_map = None) ->
  fold_left parse_section sections st
  = (fst st,
     snd st ++
       omap (fun section =>
               (fun header =>
                  str "Skipping unknown section: " ++ Soup.get_text_strip header)
                 <$> Soup.find (str "h2") section) sections).
Proof.
  revert st. induction sections as [|section sections IH]; intros st Hunknown.
  - simpl. rewrite app_nil_r. by destruct st.
  - cbn [fold_left]. rewrite IH.
    2: { intros s header Hs. apply Hunknown. by right. }
    unfold parse_section at 1 2. cbn [omap list_omap].
    destruct (Soup.find (str "h2") section) as [header|] eqn:Hheader; [|done].
    rewrite (Hunknown section header (list_elem_of_here _ _) Hheader).
    unfold warn. simpl. by rewrite <- app_assoc.
Qed.

(** X12. A page on which no section has a heading from the table parses
    to the eight categories, each empty, and the parser logs one warning
    for each section that has a heading, naming it. *)
Theorem parse_soup_unknown_headings (soup : Soup.node) :
  (forall section header,
     section ∈ Soup.select_section_block soup ->
     Soup.find (str "h2") section = Some header ->
     Dict.get (Soup.get_text_strip header) sections_map = None) ->
  parse_soup soup
  = (empty_notifications,
     omap (fun section =>
             (fun header =>
                str "Skipping unknown section: " ++ Soup.get_text_strip header)
               <$> Soup.find (str "h2") section)
          (Soup.select_section_block soup))
  /\ Dict.values empty_notifications = List.map (fun _ => []) categories.
Proof.
  intros Hunknown. split; [|reflexivity].
  unfold parse_soup. by rewrite parse_sections_unknown.
Qed.

Lemma parse_item_entry section_key candidate entry :
  parse_item section_key candidate = Entry entry ->
  item_shape section_key entry
  /\ exists text, title entry = clean_text text false.
Proof.
  unfold parse_item, item_shape.
  destruct (decide (section_key = LATEST_ANNOUNCEMENTS)).
  - destruct (Soup.find _ candidate) as [anchor|]; [|done].
    destruct (Soup.getitem _ anchor); [|done].
    destruct (Soup.find_class _ (str "date") candidate); [|done].
    destruct (Soup.find_class _ (str "name") candidate); [|done].
    intros [= <-]. simpl. eauto.
  - destruct (decide (Soup.name_of candidate = Some (str "a"))).
    + destruct (Soup.getitem _ candidate); [|done].
      intros [= <-]. simpl. eauto.
    + destruct (decide (Soup.name_of candidate = Some (str "li"))); [|done].
      destruct (Soup.find _ candidate) as [anchor|]; [|done].
      destruct (Soup.getitem _ anchor); [|done].
      intros [= <-]. simpl. eauto.
Qed.

Lemma elem_of_entries_for category sections item :
  item ∈ entries_for category sections ->
  exists candidate, parse_item category candidate = Entry item.
Proof.
  unfold entries_for. intros Hin.
  apply list_elem_of_In, in_flat_map in Hin as (section & _ & Hin).
  destruct (section_entries section) as [[section_key entries]|] eqn:Hsec;
    [|done].
  destruct (decide (section_key = category)) as [->|]; [|done].
  unfold section_entries in Hsec.
  destruct (Soup.find _ section); [|done].
  destruct (Dict.get _ sections_map); [|done].
  destruct (decide _); [done|].
  destruct (Soup.find_class _ _ section); [|done].
  injection Hsec as -> <-.
  apply list_elem_of_In, list_elem_of_omap in Hin as (candidate & _ & Hentry).
  exists candidate. unfold entry_of in Hentry.
  destruct (parse_item category candidate); by inversion Hentry.
Qed.

(** X13. Every item of a parsed snapshot has the keys of its category: a
    date and an author under the announcements, neither under any other
    category. Its title went through the plain [clean_text], so it holds
    no backslash and no newline. *)
Theorem parsed_items_shape (soup : Soup.node) (category : pystr)
    (items : list Item) (item : Item) :
  Dict.get category (fst (parse_soup soup)) = Some items ->
  item ∈ items ->
  item_shape category item
  /\ (exists text, title item = clean_text text false)
  /\ (BACKSLASH ∉ title item)
  /\ (NEWLINE ∉ title item).
Proof.
  intros Hget Hitem.
  assert (category ∈ categories) as Hcat.
  { rewrite <- (parse_soup_keys soup). apply elem_of_keys. eauto. }
  rewrite (parse_soup_get_category soup category Hcat) in Hget.
  injection Hget as <-.
  apply elem_of_entries_for in Hitem as [candidate Hparse].
  destruct (parse_item_entry _ _ _ Hparse) as [Hshape [text Htitle]].
  split; [done|]. split; [eauto|]. rewrite Htitle.
  split; [apply clean_text_plain_no_backslash|apply clean_text_no_newline].
Qed.

Lemma parsed_items_shape_witness :
  item_shape (str "Latest Announcements")
    (mkItem (str "Exam Postponed") (str "/x")
            (Some (str "2024-01-01")) (Some (str "Admin")))
  /\ (exists text, str "Exam Postponed" = clean_text text false)
  /\ (BACKSLASH ∉ str "Exam Postponed")
  /\ (NEWLINE ∉ str "Exam Postponed").
Proof.
  apply (parsed_items_shape sample_page (str "Latest Announcements")
           [mkItem (str "Exam Postponed") (str "/x")
                   (Some (str "2024-01-01")) (Some (str "Admin"))]).
  - reflexivity.
  - left.
Defined.

(** ** Linked list entries *)

Lemma node_induction (P : Soup.node -> Prop) :
  (forall text, P (Soup.NavigableString text)) ->
  (forall name classes attrs contents,
     Forall P contents -> P (Soup.Tag name classes attrs contents)) ->
  forall n, P n.
Proof.
  intros Htext Htag.
  fix IH 1. intros [text|name classes attrs contents]; [apply Htext|].
  apply Htag. induction contents as [|c contents IHc]; constructor.
  - apply IH.
  - exact IHc.
Qed.

Lemma descendants_Tag name classes attrs contents :
  Soup.descendants (Soup.Tag name classes attrs contents)
  = flat_map (fun c => c :: Soup.descendants c) contents.
Proof.
  cbn [Soup.descendants].
  induction contents as [|c contents IH]; [done|].
  cbn [flat_map]. rewrite <- IH. reflexivity.
Qed.

(** What lies below a descendant lies below the node. *)
Lemma descendants_trans x y z :
  x ∈ Soup.descendants y -> y ∈ Soup.descendants z -> x ∈ Soup.descendants z.
Proof.
  intros Hxy. induction z as [text|name classes attrs contents IH]
    using node_induction; [by intros ?%elem_of_nil|].
  rewrite descendants_Tag. rewrite !list_elem_of_In, !in_flat_map.
  intros (c & Hc & Hy). exists c. split; [done|].
  rewrite Forall_forall in IH.
  destruct Hy as [->|Hy]; right; [by apply list_elem_of_In|].
  apply list_elem_of_In, IH; [by apply list_elem_of_In|by apply list_elem_of_In].
Qed.

Lemma find_Some name n found :
  Soup.find name n = Some found ->
  found ∈ Soup.descendants n /\ Soup.name_of found = Some name.
Proof.
  unfold Soup.find, Soup.find_all. intros Hhead.
  assert (found ∈ List.filter (Soup.has_name [name]) (Soup.descendants n))
    as Hin.
  { destruct (List.filter _ _) as [|x l]; [done|].
    injection Hhead as ->. left. }
  apply list_elem_of_In, filter_In in Hin as [Hin Hname].
  split; [by apply list_elem_of_In|].
  destruct found as [text|tag classes attrs contents]; [done|].
  simpl in Hname. apply bool_decide_eq_true in Hname.
  by apply list_elem_of_singleton in Hname as ->.
Qed.

Lemma two_matches {A B} (f : A -> option B) (p : B -> bool) l x y bx by_ :
  x <> y -> x ∈ l -> y ∈ l ->
  f x = Some bx -> f y = Some by_ -> p bx = true -> p by_ = true ->
  (2 <= length (List.filter p (omap f l)))%nat.
Proof.
  intros Hne Hx Hy Hfx Hfy Hpx Hpy.
  assert (forall z bz l', z ∈ l' -> f z = Some bz -> p bz = true ->
            (1 <= length (List.filter p (omap f l')))%nat) as Hone.
  { intros z bz l' Hz Hfz Hpz. induction l' as [|a l' IH]; [by apply elem_of_nil in Hz|].
    cbn [omap list_omap]. apply elem_of_cons in Hz as [<-|Hz].
    - rewrite Hfz. cbn [List.filter]. rewrite Hpz. simpl. lia.
    - specialize (IH Hz). destruct (f a) as [b|]; [|done].
      cbn [List.filter]. destruct (p b); simpl; lia. }
  induction l as [|a l IH]; [by apply elem_of_nil in Hx|].
  cbn [omap list_omap].
  apply elem_of_cons in Hx as [<-|Hx]; apply elem_of_cons in Hy as [<-|Hy].
  - done.
  - rewrite Hfx. cbn [List.filter]. rewrite Hpx. simpl.
    pose proof (Hone y by_ l Hy Hfy Hpy). lia.
  - rewrite Hfy. cbn [List.filter]. rewrite Hpy. simpl.
    pose proof (Hone x bx l Hx Hfx Hpx). lia.
  - specialize (IH Hx Hy). destruct (f a) as [b|]; [|done].
    cbn [List.filter]. destruct (p b); simpl; lia.
Qed.

Lemma sections_map_values heading section_key :
  Dict.get heading sections_map = Some section_key ->
  section_key ∈ categories /\ section_key <> [].
Proof.
  intros Hget. apply get_Some_values, list_elem_of_In in Hget.
  vm_compute in Hget.
  repeat (destruct Hget as [<-|Hget];
          [split; [by apply (bool_decide_unpack _); vm_compute|done]|]).
  done.
Qed.

Lemma filter_link_length_app (p : Item -> bool) l1 l2 l3 :
  (length (List.filter p l2)
   <= length (List.filter p (l1 ++ l2 ++ l3)))%nat.
Proof. rewrite !List.filter_app, !length_app. lia. Qed.

(** X14. In a section other than the announcements, a list entry that
    holds a link is parsed twice: the parser takes both the [li] and the
    [a] inside it as candidates, and each gives an item with the link of
    that [a], so the category holds at least two items with that link. *)
Theorem linked_list_entry_parsed_twice (soup section header content_div li a : Soup.node)
    (section_key href : pystr) :
  section ∈ Soup.select_section_block soup ->
  Soup.find (str "h2") section = Some header ->
  Dict.get (Soup.get_text_strip header) sections_map = Some section_key ->
  section_key <> LATEST_ANNOUNCEMENTS ->
  Soup.find_class (str "div") (str "content") section = Some content_div ->
  li ∈ Soup.descendants content_div ->
  Soup.name_of li = Some (str "li") ->
  Soup.find (str "a") li = Some a ->
  Soup.getitem (str "href") a = Some href ->
  exists title_li title_a items,
    parse_item section_key li = Entry (mkItem title_li href None None)
    /\ parse_item section_key a = Entry (mkItem title_a href None None)
    /\ Dict.get section_key (fst (parse_soup soup)) = Some items
    /\ (2 <= length (List.filter (fun item => bool_decide (link item = href))
                                 items))%nat.
Proof.
  intros Hsection Hheader Hkey Hlatest Hcontent Hli Hname Ha Hhref.
  destruct (find_Some _ _ _ Ha) as [Hbelow Haname].
  destruct (sections_map_values _ _ Hkey) as [Hcat Hnonempty].
  assert (parse_item section_key li
          = Entry (mkItem (clean_text (replace NEWLINE [SPACE]
                                         (Soup.get_text_strip li)) false)
                          href None None)) as Hparse_li.
  { unfold parse_item. rewrite decide_False by done.
    rewrite Hname. rewrite decide_False by (by intros [=]).
    rewrite decide_True by done. by rewrite Ha, Hhref. }
  assert (parse_item section_key a
          = Entry (mkItem (clean_text (Soup.get_text_strip a) false)
                          href None None)) as Hparse_a.
  { unfold parse_item. rewrite decide_False by done.
    rewrite Haname. rewrite decide_True by done. by rewrite Hhref. }
  eexists _, _, _. split; [exact Hparse_li|]. split; [exact Hparse_a|].
  split; [by apply parse_soup_get_category|].
  apply list_elem_of_In, in_split in Hsection as (before & after & ->).
  unfold entries_for. rewrite flat_map_app. cbn [flat_map].
  etransitivity; [|apply filter_link_length_app].
  unfold section_entries. rewrite Hheader, Hkey.
  rewrite decide_False by done. rewrite Hcontent.
  rewrite decide_True by done.
  unfold candidates. rewrite decide_False by done.
  apply (two_matches (entry_of section_key) _ _ li a
           (mkItem (clean_text (replace NEWLINE [SPACE]
                                  (Soup.get_text_strip li)) false)
                   href None None)
           (mkItem (clean_text (Soup.get_text_strip a) false) href None None)).
  - intros ->. rewrite Hname in Haname. by injection Haname.
  - unfold Soup.find_all. apply list_elem_of_In, filter_In.
    split; [by apply list_elem_of_In|].
    destruct li as [|tag ? ? ?]; [done|]. injection Hname as ->.
    by vm_compute.
  - unfold Soup.find_all. apply list_elem_of_In, filter_In.
    split; [apply list_elem_of_In; by apply (descendants_trans a li)|].
    destruct a as [|tag ? ? ?]; [done|]. injection Haname as ->.
    by vm_compute.
  - unfold entry_of. by rewrite Hparse_li.
  - unfold entry_of. by rewrite Hparse_a.
  - simpl. by rewrite bool_decide_eq_true_2.
  - simpl. by rewrite bool_decide_eq_true_2.
Qed.

Lemma linked_list_entry_parsed_twice_witness :
  Dict.get (str "Application Formats") (fst (parse_soup sample_list_page))
  = Some [mkItem (str "Leave form") (str "/forms/leave.pdf") None None;
          mkItem (str "Leave form") (str "/forms/leave.pdf") None None].
Proof.
  destruct (linked_list_entry_parsed_twice sample_list_page sample_list_section
              (Soup.Tag (str "h2") [] [] [text_of "Application Formats"])
              (Soup.Tag (str "div") [str "content"] []
                 [Soup.Tag (str "ul") [] [] [sample_list_entry]])
              sample_list_entry
              (Soup.Tag (str "a") [] [(str "href", str "/forms/leave.pdf")]
                 [text_of "Leave form"])
              (str "Application Formats") (str "/forms/leave.pdf"))
    as (title_li & title_a & items & _ & _ & Hitems & Hcount).
  - left.
  - reflexivity.
  - reflexivity.
  - by intros [=].
  - reflexivity.
  - right. left.
  - reflexivity.
  - reflexivity.
  - reflexivity.
  - reflexivity.
Defined.

(** ** More on [WhatsAppSender.send_items] *)

Section WhatsAppMore.
Variable self : WhatsAppSender.t.
Variable spacing : Q.
Variable w : world.

Local Abbreviation post body :=
  (session_post (WhatsAppSender._api_url self)
                (WhatsAppSender.payload self body) (WhatsAppSender.headers self)).
Local Abbreviation pause := (Call (asyncio_sleep spacing)).
Local Abbreviation round body :=
  (WhatsAppSender._send_one self body;; await (asyncio_sleep spacing)).
Local Abbreviation loop messages :=
  (for_each messages (fun message : pystr => round message)).

Lemma loop_returns_all messages h t :
  loop messages w h = (t, inr tt) -> posted_bodies t = messages.
Proof.
  revert h t. induction messages as [|m ms IH]; intros h t.
  { by intros [= <-]. }
  rewrite loop_cons. destruct (round m w h) as [tb [e|[]]] eqn:Hround; [done|].
  destruct (loop ms w (h ++ tb)) as [t' r'] eqn:Hrest.
  intros [= <- ->]. apply round_completes in Hround as (lvl & msg & ->).
  rewrite posted_bodies_app, (IH _ _ Hrest). by vm_compute.
Qed.

Lemma loop_posts_from messages h t r :
  loop messages w h = (t, r) ->
  Forall (fun c => is_post c = true -> exists body, body ∈ messages /\ c = post body)
         (calls t).
Proof.
  revert h t r. induction messages as [|m ms IH]; intros h t r.
  { intros [= <- _]. constructor. }
  assert (Forall (fun c => is_post c = true ->
                           exists body, body ∈ m :: ms /\ c = post body)
                 [post m]) as Hhead.
  { repeat constructor. intros _. exists m. split; [left|done]. }
  rewrite loop_cons. destruct (round m w h) as [tb [e|[]]] eqn:Hround.
  - intros [= <- _].
    apply round_raises in Hround as [->|(lvl & msg & ->)].
    + exact Hhead.
    + change (calls _) with ([post m] ++ [asyncio_sleep spacing]).
      apply Forall_app. split; [exact Hhead|by repeat constructor].
  - destruct (loop ms w (h ++ tb)) as [t' r'] eqn:Hrest.
    intros [= <- _]. apply round_completes in Hround as (lvl & msg & ->).
    rewrite calls_app. apply Forall_app. split.
    + change (calls _) with ([post m] ++ [asyncio_sleep spacing]).
      apply Forall_app. split; [exact Hhead|by repeat constructor].
    + eapply Forall_impl; [apply (IH _ _ _ Hrest)|].
      intros c Hc Hpost. destruct (Hc Hpost) as (body & Hin & ->).
      exists body. split; [by right|done].
Qed.

(** Where a call can sit in the trace of a round followed by more. *)
Lemma round_trace_split_call body lvl msg rest p c q :
  [Call (post body); Log lvl msg; pause] ++ rest = p ++ Call c :: q ->
  (p = [] /\ c = post body /\ q = Log lvl msg :: pause :: rest)
  \/ (p = [Call (post body); Log lvl msg] /\ c = asyncio_sleep spacing /\ q = rest)
  \/ (exists p', p = [Call (post body); Log lvl msg; pause] ++ p'
                 /\ rest = p' ++ Call c :: q).
Proof.
  destruct p as [|e1 [|e2 [|e3 p']]]; simpl.
  - intros [= <- <-]. by left.
  - by intros [=].
  - intros [= <- <- <- <-]. right. by left.
  - intros [= <- <- <- ->]. right. right. by exists p'.
Qed.

(** A call that raises is the last thing the loop does. *)
Lemma loop_call_raises messages h t r p c q e :
  loop messages w h = (t, r) ->
  t = p ++ Call c :: q ->
  w (h ++ p) c = inl e ->
  q = [] /\ r = inl e.
Proof.
  revert h t r p. induction messages as [|m ms IH]; intros h t r p.
  { intros [= <- _]. by destruct p. }
  rewrite loop_cons.
  destruct (round m w h) as [tb rb] eqn:Hround.
  pose proof Hround as Hrun. rewrite round_run in Hrun.
  intros Hloop Ht Hw.
  assert (p = [] -> c = post m -> tb = [Call (post m)] /\ rb = inl e) as Hfirst.
  { intros -> ->. rewrite app_nil_r in Hw. rewrite Hw in Hrun.
    by injection Hrun as <- <-. }
  assert (forall lvl msg,
            tb = [Call (post m); Log lvl msg; pause] ->
            p = [Call (post m); Log lvl msg] -> c = asyncio_sleep spacing ->
            rb = inl e) as Hsecond.
  { intros lvl msg -> -> ->.
    destruct (w h (post m)) as [e0|resp]; [done|].
    destruct (decide _).
    - injection Hrun as <- <- <-. exact Hw.
    - destruct (text resp); [done|]. injection Hrun as <- <- <-. exact Hw. }
  destruct rb as [e0|[]].
  - injection Hloop as <- <-.
    destruct (round_raises _ _ _ _ _ _ _ Hround) as [->|(lvl & msg & ->)].
    + destruct p as [|? [|? ?]]; [|done|done]. simpl in Ht.
      injection Ht as <- <-.
      destruct (Hfirst eq_refl eq_refl) as [_ [= ->]]. done.
    + rewrite <- (app_nil_r [_; _; _]) in Ht.
      apply round_trace_split_call in Ht
        as [(-> & -> & _)|[(-> & -> & ->)|(p' & _ & Hnil)]].
      * by destruct (Hfirst eq_refl eq_refl) as [[=] _].
      * split; [done|]. exact (Hsecond lvl msg eq_refl eq_refl eq_refl).
      * by destruct p'.
  - destruct (loop ms w (h ++ tb)) as [t' r'] eqn:Hrest.
    injection Hloop as <- <-.
    destruct (round_completes _ _ _ _ _ _ Hround) as (lvl & msg & ->).
    apply round_trace_split_call in Ht
      as [(-> & -> & _)|[(-> & -> & ->)|(p' & -> & Ht')]].
    + by destruct (Hfirst eq_refl eq_refl) as [[=] _].
    + by specialize (Hsecond lvl msg eq_refl eq_refl eq_refl).
    + rewrite app_assoc in Hw. by apply (IH _ _ _ _ Hrest Ht' Hw).
Qed.

End WhatsAppMore.

(** X15. Whatever the world answers, the messages that [send_items] posts
    are an initial part of its argument, in order and without repeats;
    when [send_items] returns, it has posted them all. *)
Theorem send_items_posts_in_order (self : WhatsAppSender.t)
    (messages : list pystr) (spacing : Q) (w : world) :
  (exists n,
     posted_bodies (trace (WhatsAppSender.send_items self messages spacing) w)
     = take n messages)
  /\ (outcome (WhatsAppSender.send_items self messages spacing) w = inr tt ->
      posted_bodies (trace (WhatsAppSender.send_items self messages spacing) w)
      = messages).
Proof.
  unfold trace, outcome, run. rewrite send_items_run. cbv zeta.
  destruct (for_each messages _ w _) as [t r] eqn:Hloop.
  simpl fst. simpl snd. split.
  - destruct (loop_posts_prefix self spacing w messages _ _ _ Hloop) as [n Hn].
    exists n. exact Hn.
  - intros ->. exact (loop_returns_all self spacing w messages _ _ Hloop).
Qed.

Lemma send_items_posts_in_order_witness :
  posted_bodies
    (trace (WhatsAppSender.send_items sample_sender three_messages 0.7)
           calm_world)
  = three_messages.
Proof.
  apply (send_items_posts_in_order sample_sender three_messages 0.7 calm_world).
  reflexivity.
Defined.

(** X16. Every request that [send_items] makes is a post to the URL of
    the sender, with its bearer token in the [authorization] header and a
    payload that names its recipient, a typing time of 0 and one of the
    messages as body. *)
Theorem send_items_posts_configured (self : WhatsAppSender.t)
    (messages : list pystr) (spacing : Q) (w : world) :
  Forall (fun c =>
            match c with
            | session_post url json hdrs =>
                url = WhatsAppSender._api_url self
                /\ Dict.get (str "authorization") hdrs
                   = Some (str "Bearer " ++ WhatsAppSender._auth_token self)
                /\ Dict.get (str "to") json
                   = Some (JStr (WhatsAppSender._recipient self))
                /\ Dict.get (str "typing_time") json = Some (JInt 0)
                /\ exists body,
                     body ∈ messages
                     /\ Dict.get (str "body") json = Some (JStr body)
            | asyncio_sleep _ => True
            | _ => False
            end)
         (calls (trace (WhatsAppSender.send_items self messages spacing) w)).
Proof.
  unfold trace, run. rewrite send_items_run. cbv zeta.
  destruct (for_each messages _ w _) as [t r] eqn:Hloop. simpl fst.
  change (calls (_ :: t)) with (calls t).
  pose proof (loop_posts_from self spacing w messages _ _ _ Hloop) as Hfrom.
  pose proof (loop_calls_kind self spacing w messages _ _ _ Hloop) as Hkind.
  rewrite Forall_forall in Hfrom, Hkind. apply Forall_forall. intros c Hc.
  specialize (Hfrom c Hc). specialize (Hkind c Hc).
  destruct c; try done.
  destruct (Hfrom eq_refl) as (body & Hin & [= -> -> ->]).
  repeat split; try reflexivity. exists body. split; [done|reflexivity].
Qed.

(** X17. [send_items] stops at the first call that raises, be it a post or
    a pause that is interrupted, and at an error response whose body
    cannot be read: that call is the last event, the exception leaves
    [send_items], and the messages not yet posted are not posted. *)
Theorem send_items_stops_at_failure (self : WhatsAppSender.t)
    (messages : list pystr) (spacing : Q) (w : world) :
  (forall p c q e,
     trace (WhatsAppSender.send_items self messages spacing) w
       = p ++ Call c :: q ->
     w p c = inl e ->
     q = []
     /\ outcome (WhatsAppSender.send_items self messages spacing) w = inl e)
  /\ (forall p url json hdrs q resp e,
        trace (WhatsAppSender.send_items self messages spacing) w
          = p ++ Call (session_post url json hdrs) :: q ->
        w p (session_post url json hdrs) = inr resp ->
        status resp <> 200%Z ->
        text resp = inl e ->
        q = []
        /\ outcome (WhatsAppSender.send_items self messages spacing) w = inl e).
Proof.
  unfold trace, outcome, run. rewrite send_items_run. cbv zeta.
  destruct (for_each messages _ w _) as [t r] eqn:Hloop.
  simpl fst. simpl snd. split.
  - intros p c q e Ht Hw.
    destruct p as [|first p]; [done|]. injection Ht as <- Ht.
    exact (loop_call_raises self spacing w messages _ _ _ _ _ _ _
             Hloop Ht Hw).
  - intros p url json hdrs q resp e Ht Hw Hst Htxt.
    destruct p as [|first p]; [done|]. injection Ht as <- Ht.
    destruct (loop_body_unreadable self spacing w messages _ _ _ _ _ _ _ _ _ _
                Hloop Ht Hw Hst Htxt) as (Hq & Hr & _).
    by split.
Qed.

Lemma send_items_stops_at_failure_witness :
  outcome (WhatsAppSender.send_items sample_sender three_messages 60)
          cancelled_pause_world = inl CancelledError
  /\ posted_bodies
       (trace (WhatsAppSender.send_items sample_sender three_messages 60)
              cancelled_pause_world) = [str "one"].
Proof.
  destruct (send_items_stops_at_failure sample_sender three_messages 60
              cancelled_pause_world) as [Hraises _].
  destruct (Hraises
              (removelast
                 (trace (WhatsAppSender.send_items sample_sender
                           three_messages 60) cancelled_pause_world))
              (asyncio_sleep 60) [] CancelledError) as [_ Hout];
    [by vm_compute..|].
  split; [exact Hout|by vm_compute].
Defined.

(** ** Shutdown *)

(** X18. [_on_shutdown] closes the session and then the state store in
    every run, whatever the awaited task or the session raise; it
    cancels and awaits the task before that only when there is one that
    is still running. The exception that leaves it is that of the store
    if closing the store raises, else that of the session, else that of
    the awaited task unless it is the cancellation, which is swallowed. *)
Theorem on_shutdown_closes (task : Shutdown.task_state) (w : Shutdown.world) :
  let before :=
    match task with
    | Shutdown.TaskRunning => [Shutdown.task_cancel; Shutdown.await_task]
    | _ => []
    end in
  let awaited : exn + unit :=
    match task with
    | Shutdown.TaskRunning =>
        match w [Shutdown.task_cancel] Shutdown.await_task with
        | inl CancelledError => inr tt
        | answer => answer
        end
    | _ => inr tt
    end in
  Shutdown.run (Shutdown._on_shutdown task) w =
    (before ++ [Shutdown.session_close; Shutdown.storage_close],
     match w (before ++ [Shutdown.session_close]) Shutdown.storage_close with
     | inl e => inl e
     | inr _ =>
         match w before Shutdown.session_close with
         | inl e => inl e
         | inr _ => awaited
         end
     end).
Proof.
  unfold Shutdown.run, Shutdown._on_shutdown, Shutdown.try_finally,
    Shutdown.try_except, Shutdown.bind, Shutdown.await, Shutdown.call,
    Shutdown.ret.
  destruct task; simpl.
  - destruct (w [Shutdown.session_close] _) as [e|[]]; [done|].
    by destruct (w [] Shutdown.session_close) as [e|[]].
  - destruct (w [Shutdown.session_close] _) as [e|[]]; [done|].
    by destruct (w [] Shutdown.session_close) as [e|[]].
  - destruct (w [Shutdown.task_cancel] Shutdown.await_task) as [[]|[]]; simpl;
      (destruct (w [_; _; Shutdown.session_close] _) as [e|[]]; [done|]);
      by destruct (w [_; _] Shutdown.session_close) as [e|[]].
Qed.

Lemma parse_soup_unknown_headings_witness :
  parse_soup sample_unknown_page
  = (empty_notifications, [str "Skipping unknown section: Placements"]).
Proof.
  apply (parse_soup_unknown_headings sample_unknown_page).
  intros section header Hin.
  change (section ∈ [sample_unknown_section]) in Hin.
  apply list_elem_of_singleton in Hin as ->.
  intros [= <-]. reflexivity.
Defined.

Lemma get_latest_notifications_contained_witness :
  snd (get_latest_notifications sample_soup sample_bot calm_world [])
  = inr sample_snapshot.
Proof.
  destruct (get_latest_notifications_contained sample_soup sample_bot
              calm_world []) as (_ & _ & Hparsed & _).
  apply (Hparsed ok_response (str "<html>") sample_page); reflexivity.
Defined.

(** ** Cycle after cycle on a page that does not change *)

Lemma stored_app initial h t :
  stored initial (h ++ t) = stored (stored initial h) t.
Proof. unfold stored. apply fold_left_app. Qed.

Lemma stored_no_save state t :
  Forall (fun c => is_save c = false) (calls t) -> stored state t = state.
Proof.
  revert state. induction t as [|ev t IH]; intros state Hnone; [done|].
  destruct ev as [c|lvl msg].
  - change (calls (Call c :: t)) with (c :: calls t) in Hnone.
    apply Forall_cons in Hnone as [Hc Hnone].
    destruct c; try done; by apply IH.
  - by apply IH.
Qed.

Section Steady.
Variable BeautifulSoup : pystr -> pystr + Soup.node.
Variable self : NotificationBot.
Variable content : pystr.
Variable initial : Snapshot.
Variable w : world.
Hypothesis Hsteady : steady_world content initial w.

Local Abbreviation current := (snapshot_of BeautifulSoup content).
Local Abbreviation warnings := (fetch_log BeautifulSoup content).
Local Abbreviation quiet_round :=
  ([session_get (page_url self); storage_load_state;
    asyncio_sleep (CHECK_INTERVAL (config self))]).

Lemma steady_fetch h :
  get_latest_notifications BeautifulSoup self w h
  = (fetch self :: warnings, inr current).
Proof.
  destruct Hsteady as (Hget & _).
  rewrite get_latest_notifications_run, Hget. simpl.
  unfold snapshot_of, fetch_log. by destruct (BeautifulSoup content).
Qed.

Lemma all_seen_self (state : Snapshot) : all_seen state state.
Proof.
  intros section items item Hget Hitem. unfold Dict.get_or. by rewrite Hget.
Qed.

(** A cycle leaves the store holding every item of the page. *)
Lemma steady_cycle h :
  exists t,
    check_for_updates BeautifulSoup self w h = (t, inr tt)
    /\ all_seen current (stored initial (h ++ t)).
Proof.
  destruct Hsteady as (Hget & Hload & Hsave & Htg & Hpost & Hsleep).
  rewrite check_for_updates_run, steady_fetch, Hload. cbv zeta.
  assert (Forall (fun c => is_save c = false) (calls (fetch self :: warnings)))
    as Hfetch.
  { pose proof (get_latest_notifications_calls BeautifulSoup self w h) as Hc.
    rewrite steady_fetch in Hc. eapply Forall_impl; [exact Hc|].
    by intros c ->. }
  destruct (any_new _) eqn:Hany.
  - match goal with
    | |- context [send_notifications self ?delta w ?history] =>
        destruct (send_notifications_completes self w delta history) as [t2 ->]
    end.
    { split; [intros h' url'; by rewrite Hget|].
      split; [intros h'; by eexists|]. by repeat split. }
    rewrite Hsave. eexists. split; [done|].
    rewrite !stored_app.
    change (load_state :: t2 ++ ?x) with ([load_state] ++ t2 ++ x).
    rewrite !stored_app. apply all_seen_self.
  - eexists. split; [done|].
    rewrite app_assoc, stored_app.
    change (stored ?state [load_state]) with state.
    exact (proj1 (nothing_new_iff _ _) Hany).
Qed.

(** Once the store holds every item of the page, a cycle only fetches
    the page and reads the state, and the store keeps what it holds. *)
Lemma steady_quiet_cycle h :
  all_seen current (stored initial h) ->
  exists t,
    check_for_updates BeautifulSoup self w h = (t, inr tt)
    /\ calls t = [session_get (page_url self); storage_load_state]
    /\ stored initial (h ++ t) = stored initial h.
Proof.
  intros Hseen.
  destruct Hsteady as (Hget & Hload & Hsave & Htg & Hpost & Hsleep).
  assert (Forall (fun c => is_save c = false) (calls (fetch self :: warnings)))
    as Hfetch.
  { pose proof (get_latest_notifications_calls BeautifulSoup self w h) as Hc.
    rewrite steady_fetch in Hc. eapply Forall_impl; [exact Hc|].
    by intros c ->. }
  assert (stored initial (h ++ fetch self :: warnings) = stored initial h)
    as Hsame by (by rewrite stored_app, stored_no_save).
  rewrite check_for_updates_run, steady_fetch, Hload, Hsame. cbv zeta.
  rewrite (proj2 (nothing_new_iff _ _) Hseen).
  eexists. split; [done|]. split.
  - pose proof (get_latest_notifications_calls_exact BeautifulSoup self w h)
      as Hc.
    rewrite steady_fetch in Hc. simpl fst in Hc.
    by rewrite calls_app, Hc.
  - rewrite app_assoc, stored_app. cbn [stored fold_left]. exact Hsame.
Qed.

Lemma steady_quiet_rounds n h :
  all_seen current (stored initial h) ->
  exists t,
    ticker_rounds BeautifulSoup self n w h = (t, inr Looping)
    /\ calls t = List.concat (repeat quiet_round n).
Proof.
  pose proof Hsteady as (_ & _ & _ & _ & _ & Hsleep).
  revert h. induction n as [|n IH]; intros h Hseen; [by exists []|].
  rewrite ticker_rounds_S.
  destruct (steady_quiet_cycle h Hseen) as (t & -> & Hcalls & Hstored).
  rewrite Hsleep.
  destruct (IH ((h ++ t) ++ [tick_of self])) as (t' & -> & Hcalls').
  { rewrite stored_app. cbn [stored fold_left]. by rewrite Hstored. }
  eexists. split; [done|].
  change (tick_of self :: t') with ([tick_of self] ++ t').
  rewrite !calls_app, Hcalls, Hcalls'. reflexivity.
Qed.

End Steady.

(** X19. On a page that answers with the same body each time, with a
    store that returns what was last saved and senders that answer, the
    loop sends at most once: after the first round, every further round
    only fetches the page, reads the state and pauses, without any call of
    a sender and without writing the state. *)
Theorem steady_page_sends_once (BeautifulSoup : pystr -> pystr + Soup.node)
    (self : NotificationBot) (content : pystr) (initial : Snapshot)
    (w : world) (n : nat) :
  steady_world content initial w ->
  exists first rest,
    run (ticker_rounds BeautifulSoup self 1) w = (first, inr Looping)
    /\ run (ticker_rounds BeautifulSoup self (S n)) w
       = (first ++ rest, inr Looping)
    /\ calls rest =
         List.concat
           (repeat [session_get (page_url self); storage_load_state;
                    asyncio_sleep (CHECK_INTERVAL (config self))] n).
Proof.
  intros Hsteady. pose proof Hsteady as (_ & _ & _ & _ & _ & Hsleep).
  unfold run. rewrite !ticker_rounds_S.
  destruct (steady_cycle BeautifulSoup self content initial w Hsteady [])
    as (t & -> & Hseen).
  rewrite Hsleep. cbn [ticker_rounds ret].
  destruct (steady_quiet_rounds BeautifulSoup self content initial w Hsteady n
              (([] ++ t) ++ [tick_of self])) as (rest & -> & Hcalls).
  { rewrite stored_app. cbn [stored fold_left]. exact Hseen. }
  exists (t ++ [tick_of self]), rest.
  split; [done|]. split; [by rewrite <- app_assoc|exact Hcalls].
Qed.

Lemma steady_page_sends_once_witness :
  exists first rest,
    run (ticker_rounds sample_soup sample_bot 1) steady_sample_world
      = (first, inr Looping)
    /\ run (ticker_rounds sample_soup sample_bot 3) steady_sample_world
       = (first ++ rest, inr Looping)
    /\ calls rest =
         List.concat
           (repeat [session_get (page_url sample_bot); storage_load_state;
                    asyncio_sleep (CHECK_INTERVAL (config sample_bot))] 2).
Proof.
  apply (steady_page_sends_once sample_soup sample_bot (str "<html>")
           Dict.empty steady_sample_world 2).
  repeat split; intros; try reflexivity. eexists _, _. reflexivity.
Defined.
